(** * Gatsby action creators ([packages/gatsby/src/redux/actions.js])

    A shallow embedding of the action creators of Gatsby's redux layer and
    the properties of the node / type / field ownership model, the
    change detection that turns a re-submission into a touch, parent-child
    linking, page path normalisation and redirect prefixing.

    JavaScript objects used as dictionaries ([typeOwners], [node.fields],
    [node.internal.fieldOwners], the redux node table) are finite maps of
    their own properties; where the code reads or writes a member of a
    plain object by a computed name ([typeOwners[type]],
    [fieldOwners[name]], [fields[name]]) the members inherited from
    [Object.prototype] are taken into account ([get_member],
    [set_member]);
    the objects an action creator mutates in place (the caller's node, the
    module-level [typeOwners] table, the console) are threaded as explicit
    state, and the state is returned for every completion, abrupt ones
    included, because the writes of a call that throws stay visible to the
    caller. *)

From Stdlib Require Import ZArith Ascii String.
From stdpp Require Import base option gmap strings list fin_maps.

Set Warnings "-register-all".
Local Open Scope Z_scope.

(** ** JavaScript values *)

(** The values a plugin can store in a node, a page context or a field. *)
Inductive value :=
| VUndefined
| VNull
| VBool (b : bool)
| VNumber (z : Z)
| VString (s : string)
| VArray (items : list value)
| VObject (props : list (string * value)).

(** [ToBoolean] on the values above: [if (v)], [!v], [a || b]. *)
Definition truthy (v : value) : bool :=
  match v with
  | VUndefined | VNull => false
  | VBool b => b
  | VNumber z => negb (z =? 0)
  | VString s => negb (String.eqb s EmptyString)
  | VArray _ | VObject _ => true
  end.

(** [ToBoolean] on a property that holds a string or is undefined. *)
Definition truthy_str (o : option string) : bool :=
  match o with
  | Some s => negb (String.eqb s EmptyString)
  | None => false
  end.

(** An undefined value used as a property key or inside a template
    literal is converted to the string [undefined]. *)
Definition to_key (o : option string) : string := default "undefined" o.

(** [a === b] on properties that hold a string or are undefined. *)
Definition strict_eq (a b : option string) : bool := bool_decide (a = b).

(** ** Data model *)

(** [type Plugin = { name: string }] *)
Record Plugin := { name : string }.

(** [node.internal] *)
Module Internal.
Record t := mk {
  owner : option string;
  type : option string;
  contentDigest : option string;
  mediaType : option string;
  content : option string;
  fieldOwners : option (gmap string string)
}.

(** The object literal [{}]. *)
Definition empty : t := mk None None None None None None.

Definition set_owner (o : option string) (i : t) : t :=
  mk o (type i) (contentDigest i) (mediaType i) (content i) (fieldOwners i).

Definition set_fieldOwners (f : option (gmap string string)) (i : t) : t :=
  mk (owner i) (type i) (contentDigest i) (mediaType i) (content i) f.
End Internal.

(** A node object.  [data] holds the plugin's own top-level properties. *)
Module Node.
Record t := mk {
  id : string;
  parent : option string;
  children : list string;
  internal : option Internal.t;
  fields : option (gmap string value);
  data : list (string * value)
}.

Definition set_id (s : string) (n : t) : t :=
  mk s (parent n) (children n) (internal n) (fields n) (data n).

Definition set_children (c : list string) (n : t) : t :=
  mk (id n) (parent n) c (internal n) (fields n) (data n).

Definition set_internal (i : option Internal.t) (n : t) : t :=
  mk (id n) (parent n) (children n) i (fields n) (data n).

Definition set_fields (f : option (gmap string value)) (n : t) : t :=
  mk (id n) (parent n) (children n) (internal n) f (data n).

(** [node.internal.owner], [undefined] when it cannot be read. *)
Definition owner (n : t) : option string := internal n ≫= Internal.owner.

(** [node.internal.type] *)
Definition type (n : t) : option string := internal n ≫= Internal.type.

(** [node.internal.contentDigest] *)
Definition contentDigest (n : t) : option string :=
  internal n ≫= Internal.contentDigest.

(** [node.internal.fieldOwners] *)
Definition fieldOwners (n : t) : option (gmap string string) :=
  internal n ≫= Internal.fieldOwners.
End Node.

(** The argument of [createNode] is typed [any]: an object, or a value
    for which [_.isObject] is false. *)
Inductive node_arg :=
| NodeObject (n : Node.t)
| NotObject (v : value).

(** [type PageInput] *)
Module PageInput.
Record t := mk {
  path : string;
  component : string;
  layout : option string;
  context : option value;
  matchPath : option string
}.
End PageInput.

(** [type Page]; [layout] is [null] when [None]. *)
Module Page.
Record t := mk {
  layout : option string;
  jsonName : string;
  internalComponentName : string;
  path : string;
  matchPath : option string;
  component : string;
  componentChunkName : string;
  context : value;
  updatedAt : Z
}.

Definition set_path (p : string) (g : t) : t :=
  mk (layout g) (jsonName g) (internalComponentName g) p (matchPath g)
     (component g) (componentChunkName g) (context g) (updatedAt g).
End Page.

(** [type LayoutInput] *)
Module LayoutInput.
Record t := mk {
  id : option string;
  component : string;
  context : option value
}.
End LayoutInput.

(** [type Layout]; [isLayout] is the constant [true]. *)
Module Layout.
Record t := mk {
  id : string;
  machineId : string;
  componentWrapperPath : string;
  isLayout : bool;
  jsonName : string;
  internalComponentName : string;
  component : string;
  componentChunkName : string;
  context : value
}.
End Layout.

(** [type CreateNodeInput], the argument of [createNodeField]. *)
Module FieldInput.
Record t := mk {
  node : Node.t;
  name : option string;
  fieldName : option string;
  fieldValue : value;
  value : value
}.

Definition set_node (n : Node.t) (i : t) : t :=
  mk n (name i) (fieldName i) (fieldValue i) (value i).
End FieldInput.

(** The argument and the payload of [createRedirect]. *)
Module RedirectInput.
Record t := mk {
  fromPath : string;
  isPermanent : option bool;
  redirectInBrowser : option bool;
  toPath : string;
  rest : list (string * value)
}.
End RedirectInput.

Module Redirect.
Record t := mk {
  fromPath : string;
  isPermanent : bool;
  redirectInBrowser : bool;
  toPath : string;
  rest : list (string * value)
}.
End Redirect.

(** The actions returned by the creators modelled here, one constructor
    per [type] string, carrying the other keys of the object literal. *)
Inductive action :=
| DELETE_PAGE (payload : PageInput.t)
| CREATE_PAGE (plugin : option Plugin) (traceId : option string)
    (payload : Page.t)
| DELETE_LAYOUT (payload : Layout.t)
| CREATE_LAYOUT (plugin : option Plugin) (traceId : option string)
    (payload : Layout.t)
| DELETE_NODE (plugin : option Plugin) (node : Node.t) (payload : string)
| DELETE_NODES (plugin : option Plugin) (payload : list string)
| VALIDATION_ERROR
| TOUCH_NODE (plugin : option Plugin) (traceId : option string)
    (payload : string)
| CREATE_NODE (plugin : option Plugin) (traceId : option string)
    (payload : Node.t)
| ADD_FIELD_TO_NODE (plugin : option Plugin) (traceId : option string)
    (payload : Node.t)
| ADD_CHILD_NODE_TO_PARENT_NODE (plugin : option Plugin) (payload : Node.t)
| CREATE_REDIRECT (payload : Redirect.t).

(** What a creator hands back to its caller. *)
Inductive returned :=
| Undefined
| Null
| Action (a : action).

(** ** Members of a plain object

    [typeOwners] and [fieldOwners] are plain objects ([{}]) used as
    dictionaries from a name to a plugin name.  A finite map holds their
    own properties; a name that is not an own property is looked up in
    [Object.prototype]. *)

(** The names of the members of [Object.prototype]. *)
Definition inherited_names : list string :=
  ["constructor"; "__defineGetter__"; "__defineSetter__"; "hasOwnProperty";
   "__lookupGetter__"; "__lookupSetter__"; "isPrototypeOf";
   "propertyIsEnumerable"; "toString"; "valueOf"; "__proto__";
   "toLocaleString"].

Definition inherited (k : string) : bool :=
  bool_decide (k ∈ inherited_names).

(** What [obj[k]] evaluates to: the own property, a member of
    [Object.prototype] (a function, or the prototype itself for
    [__proto__]), or [undefined]. *)
Inductive member :=
| Own (s : string)
| Inherited
| Missing.

(** [obj[k]] *)
Definition get_member (obj : gmap string string) (k : string) : member :=
  match obj !! k with
  | Some s => Own s
  | None => if inherited k then Inherited else Missing
  end.

(** [ToBoolean] on a member: functions and objects are truthy. *)
Definition truthy_member (x : member) : bool :=
  match x with
  | Own s => negb (String.eqb s EmptyString)
  | Inherited => true
  | Missing => false
  end.

(** [x === s] for a string [s]: no function or object is a string. *)
Definition member_eq (x : member) (s : string) : bool :=
  match x with
  | Own o => bool_decide (o = s)
  | Inherited | Missing => false
  end.

(** [obj[k] = v], on the own properties.  An assignment to [__proto__]
    that finds no own property of that name is taken by the accessor of
    [Object.prototype] and creates no own property (a string is ignored;
    an object would become the prototype, which no read in this file
    depends on); every other assignment creates or updates the own
    property. *)
Definition set_member {A} (k : string) (v : A) (obj : gmap string A)
  : gmap string A :=
  if String.eqb k "__proto__" && negb (bool_decide (is_Some (obj !! k)))
  then obj
  else <[k := v]> obj.

(** The errors thrown, with the data their message is built from. *)
Inductive error :=
| ReservedFields (node : Node.t) (plugin : option Plugin)
| TypeOwnedByOther (pluginName type : string) (owner : member)
    (node : Node.t)
| NodeOwnedByOther (nodeId : string) (owner : option string)
    (pluginName : string)
| FieldOwnedByOther (nodeId pluginName name : string) (v : value)
| TypeError (what : string).

(** What is written to the console. *)
Inductive log_entry :=
| LogText (s : string)
| LogValidation (err : string)
| LogNode (n : Node.t)
| LogPage (p : Page.t)
| LogLayout (l : Layout.t)
| Warn (s : string).

(** The module-level mutable state: the [typeOwners] table, the console,
    and the ids handed to [trackSubObjectsToRootNodeId]. *)
Record state := mkState {
  typeOwners : gmap string string;
  console : list log_entry;
  tracked : list string
}.

Definition log (e : log_entry) (s : state) : state :=
  mkState (typeOwners s) (console s ++ [e]) (tracked s).

Definition track (nodeId : string) (s : state) : state :=
  mkState (typeOwners s) (console s) (tracked s ++ [nodeId]).

Definition set_typeOwners (m : gmap string string) (s : state) : state :=
  mkState m (console s) (tracked s).

(** The snapshot [store.getState()] the creators read: the node table,
    [program.directory], [program.prefixPaths], [config.pathPrefix], and
    the clock read by [Date.now()]. *)
Record store := mkStore {
  nodes : gmap string Node.t;
  directory : string;
  prefixPaths : bool;
  pathPrefix : option string;
  now : Z
}.

(** ** Collaborators outside this file

    Functions imported from lodash, Joi, glob, path and from other files
    of the package; the creators are modelled over any implementation of
    them.  A validator returns [result.error]: [None] when the record is
    accepted. *)
Class Env := {
  createUuid : string -> string -> string;
  kebabCase : string -> string;
  camelCase : string -> string;
  upperFirst : string -> string;
  generateComponentChunkName : string -> string;
  joinPath : list string -> string;
  parse_name : string -> string;
  glob_sync : string -> list string;
  nodeSchema : Node.t -> option string;
  pageSchema : Page.t -> option string;
  layoutSchema : Layout.t -> option string
}.

(** Modelled from the spec: [getNode] of [redux/index], which is not part
    of this file: the lookup of an id in the node table of the store. *)
Definition getNode (st : store) (nodeId : string) : option Node.t :=
  nodes st !! nodeId.

(** Modelled from the spec: [hasNodeChanged] of [redux/index], which is
    not part of this file.  It looks up the stored digest for the id; an
    absent node counts as changed, a present one is changed exactly when
    its digest is not the very same string. *)
Definition hasNodeChanged (st : store) (nodeId : string)
    (digest : option string) : bool :=
  match getNode st nodeId with
  | None => true
  | Some n => negb (strict_eq (Node.contentDigest n) digest)
  end.

(** ** Statements

    A statement runs on a state and completes either normally ([Next]),
    by [return], by [throw] or by [process.exit]; the state it leaves
    behind is kept in every case. *)
Inductive completion :=
| Next
| Return (r : returned)
| Throw (e : error)
| Exit (code : Z).

Definition stmt (S : Type) : Type := S -> completion * S.

Definition skip {S} : stmt S := fun s => (Next, s).

Definition seq {S} (a b : stmt S) : stmt S :=
  fun s => match a s with
           | (Next, s') => b s'
           | (c, s') => (c, s')
           end.

Definition when {S} (c : S -> bool) (body : stmt S) : stmt S :=
  fun s => if c s then body s else (Next, s).

Definition ifelse {S} (c : S -> bool) (a b : stmt S) : stmt S :=
  fun s => if c s then a s else b s.

Definition modify {S} (f : S -> S) : stmt S := fun s => (Next, f s).

Definition ret {S} (f : S -> returned) : stmt S :=
  fun s => (Return (f s), s).

Definition throw {S} (f : S -> error) : stmt S :=
  fun s => (Throw (f s), s).

Definition exit {S} (code : Z) : stmt S := fun s => (Exit code, s).

(** [const x = e; ...] *)
Definition const {S A} (e : S -> A) (k : A -> stmt S) : stmt S :=
  fun s => k (e s) s.

(** A function body that falls off its end returns [undefined]. *)
Definition call {S} (body : stmt S) : stmt S :=
  fun s => match body s with
           | (Next, s') => (Return Undefined, s')
           | r => r
           end.

Declare Scope stmt_scope.
Delimit Scope stmt_scope with stmt.
Notation "a ;; b" := (seq a b%stmt)
  (at level 100, b at level 200, right associativity) : stmt_scope.
Notation "'const!' x ':=' e 'in' k" := (const e (fun x => k%stmt))
  (at level 10, x name, e at level 200, k at level 200) : stmt_scope.

(** ** Deleting pages, layouts and nodes, touching a node *)

Definition deletePage (page : PageInput.t) : action := DELETE_PAGE page.

Definition deleteLayout (layout : Layout.t) (plugin : option Plugin)
  : action := DELETE_LAYOUT layout.

Definition deleteNode (nodeId : string) (node : Node.t)
    (plugin : option Plugin) : action :=
  DELETE_NODE plugin node nodeId.

Definition deleteNodes (nodes : list string) (plugin : option Plugin)
  : action := DELETE_NODES plugin nodes.

Definition touchNode (nodeId : string) (plugin : option Plugin) : action :=
  TOUCH_NODE plugin None nodeId.

(** ** createNode *)

Definition owner_is_automatic : string :=
  "The node internal.owner field is set automatically by Gatsby and not by plugin".

Definition node_invalid : string := "The new node didn't pass validation".

Definition cannot_read_owner : string :=
  "Cannot read property 'owner' of undefined".

(** The caller's node object together with the module state. *)
Record frame := mkFrame { node : Node.t; st : state }.

Definition on_node (f : Node.t -> Node.t) (s : frame) : frame :=
  mkFrame (f (node s)) (st s).

Definition on_state (f : state -> state) (s : frame) : frame :=
  mkFrame (node s) (f (st s)).

(** [node.internal.<key> = ...]: a write through [node.internal], which
    throws when that is undefined. *)
Definition assign_internal (f : frame -> Internal.t -> Internal.t)
  : stmt frame :=
  fun s => match Node.internal (node s) with
           | Some i =>
               (Next, on_node (Node.set_internal (Some (f s i))) s)
           | None =>
               (Throw (TypeError "Cannot set property of undefined"), s)
           end.

(** ** createParentChildLink *)

(** lodash's [_.uniq] on an array of ids: the loop of [baseUniq], which
    pushes a value onto [result] unless [result] already includes it. *)
Fixpoint baseUniq (result array : list string) : list string :=
  match array with
  | [] => result
  | x :: rest =>
      if bool_decide (x ∈ result) then baseUniq result rest
      else baseUniq (result ++ [x]) rest
  end.

Definition uniq (array : list string) : list string := baseUniq [] array.

(** [actions.createParentChildLink]: the action, whose payload is the
    parent object, which the call has updated in place. *)
Definition createParentChildLink (parent child : Node.t)
    (plugin : option Plugin) : action :=
  (* Update parent *)
  let parent := Node.set_children (Node.children parent ++ [Node.id child])
                  parent in
  let parent := Node.set_children (uniq (Node.children parent)) parent in
  ADD_CHILD_NODE_TO_PARENT_NODE plugin parent.

(** The parent object after [createParentChildLink]. *)
Definition linked (parent child : Node.t) : Node.t :=
  match createParentChildLink parent child None with
  | ADD_CHILD_NODE_TO_PARENT_NODE _ p => p
  | _ => parent
  end.

(** ** createRedirect *)

Definition createRedirect (r : RedirectInput.t) (S : store) : action :=
  let pathPrefix :=
    if prefixPaths S then pathPrefix S else Some EmptyString in
  CREATE_REDIRECT
    {| Redirect.fromPath := to_key pathPrefix +:+ RedirectInput.fromPath r;
       Redirect.isPermanent := default false (RedirectInput.isPermanent r);
       Redirect.redirectInBrowser :=
         default false (RedirectInput.redirectInBrowser r);
       Redirect.toPath := to_key pathPrefix +:+ RedirectInput.toPath r;
       Redirect.rest := RedirectInput.rest r |}.

Section Creators.
Context {E : Env}.
Local Open Scope stmt_scope.

(** The checks of [createNode] that run only when a plugin is given:
    lines 388-425 of the file. *)
Definition ownership (p : Plugin) (oldNode : option Node.t)
  : stmt frame :=
  let pluginName := name p in
  (const! owner := fun s =>
     get_member (typeOwners (st s)) (to_key (Node.type (node s))) in
   ifelse (fun _ => negb (truthy_member owner))
     (modify (fun s =>
        on_state (set_typeOwners
          (set_member (to_key (Node.type (node s))) pluginName
             (typeOwners (st s)))) s))
     (when (fun _ => negb (member_eq owner pluginName))
        (throw (fun s =>
           TypeOwnedByOther pluginName (to_key (Node.type (node s)))
             owner (node s))))) ;;
  (* If the node has been created in the past, check that the current
     plugin is the same as the previous. *)
  match oldNode with
  | None => skip
  | Some old =>
      match Node.internal old with
      | None =>
          throw (fun _ => TypeError cannot_read_owner)
      | Some i =>
          when (fun _ =>
                  negb (strict_eq (Internal.owner i) (Some pluginName)))
            (throw (fun s =>
               NodeOwnedByOther (Node.id (node s)) (Internal.owner i)
                 pluginName))
      end
  end.

(** The body of [createNode] once its argument is known to be an
    object. *)
Definition createNode_body (plugin : option Plugin)
    (traceId : option string) (S : store) : stmt frame :=
  (* Ensure the new node has an internals object. *)
  when (fun s => negb (bool_decide (is_Some (Node.internal (node s)))))
    (modify (on_node (Node.set_internal (Some Internal.empty)))) ;;
  (* Tell user not to set the owner name themself. *)
  when (fun s => truthy_str (Node.owner (node s)))
    (modify (fun s => on_state (log (LogNode (node s))) s) ;;
     modify (on_state (log (LogText owner_is_automatic))) ;;
     exit 1) ;;
  (* Add the plugin name to the internal object and generate uuid for
     the id. *)
  match plugin with
  | Some p =>
      assign_internal (fun _ => Internal.set_owner (Some (name p))) ;;
      modify (fun s =>
        on_node (Node.set_id (createUuid (Node.id (node s)) (name p))) s)
  | None => skip
  end ;;
  (const! result := fun s => nodeSchema (node s) in
   match result with
   | Some err =>
       modify (on_state (log (LogText node_invalid))) ;;
       modify (on_state (log (LogValidation err))) ;;
       modify (fun s => on_state (log (LogNode (node s))) s) ;;
       ret (fun _ => Action VALIDATION_ERROR)
   | None => skip
   end) ;;
  (* Ensure node isn't directly setting fields. *)
  when (fun s => bool_decide (is_Some (Node.fields (node s))))
    (throw (fun s => ReservedFields (node s) plugin)) ;;
  modify (fun s => on_state (track (Node.id (node s))) s) ;;
  (const! oldNode := fun s => getNode S (Node.id (node s)) in
   (* Ensure the plugin isn't creating a node type owned by another
      plugin. Type "ownership" is first come first served. *)
   match plugin with
   | Some p => ownership p oldNode
   | None => skip
   end ;;
   (* Check if the node has already been processed. *)
   ifelse (fun s =>
             bool_decide (is_Some oldNode) &&
             negb (hasNodeChanged S (Node.id (node s))
                     (Node.contentDigest (node s))))
     (ret (fun s =>
        Action (TOUCH_NODE plugin traceId (Node.id (node s)))))
     (ret (fun s => Action (CREATE_NODE plugin traceId (node s))))).

(** [actions.createNode]: the completion, the caller's argument after
    the call, and the module state after the call. *)
Definition createNode (arg : node_arg) (plugin : option Plugin)
    (traceId : option string) (S : store) (s : state)
  : completion * node_arg * state :=
  match arg with
  | NotObject v =>
      (* !_.isObject(node) *)
      (Return Undefined, arg,
       log (LogText
         "The node passed to the createNode action creator must be an object") s)
  | NodeObject n =>
      let '(c, f) := call (createNode_body plugin traceId S)
                       (mkFrame n s) in
      (c, NodeObject (node f), st f)
  end.

(** ** createNodeField *)

Definition fieldName_deprecated : string :=
  "Calling createNodeField with fieldName is deprecated. Use name instead".

Definition fieldValue_deprecated : string :=
  "Calling createNodeField with fieldValue is deprecated. Use value instead".

Definition cannot_read_fieldOwners : string :=
  "Cannot read property 'fieldOwners' of undefined".

(** [node.fields[k] = v]: a write through [node.fields]. *)
Definition assign_fields (k : string) (v : value) : stmt frame :=
  fun s => match Node.fields (node s) with
           | Some m =>
               (Next,
                on_node (Node.set_fields (Some (set_member k v m))) s)
           | None =>
               (Throw (TypeError "Cannot set property of undefined"), s)
           end.

(** The field name after the deprecated [fieldName] is taken into
    account (lines 497-504). *)
Definition field_name (i : FieldInput.t) : option string :=
  if truthy_str (FieldInput.fieldName i)
     && negb (truthy_str (FieldInput.name i))
  then FieldInput.fieldName i
  else FieldInput.name i.

(** The field value after the deprecated [fieldValue] is taken into
    account (lines 505-512). *)
Definition field_value (i : FieldInput.t) : value :=
  if truthy (FieldInput.fieldValue i)
     && negb (truthy (FieldInput.value i))
  then FieldInput.fieldValue i
  else FieldInput.value i.

Definition createNodeField_body (i : FieldInput.t) (plugin : Plugin)
    (traceId : option string) : stmt frame :=
  when (fun _ => truthy_str (FieldInput.fieldName i))
    (modify (on_state (log (Warn fieldName_deprecated)))) ;;
  when (fun _ => truthy (FieldInput.fieldValue i))
    (modify (on_state (log (Warn fieldValue_deprecated)))) ;;
  let fname := to_key (field_name i) in
  let fvalue := field_value i in
  (* Ensure required fields are set. *)
  (const! internal := fun s => Node.internal (node s) in
   match internal with
   | None =>
       throw (fun _ => TypeError cannot_read_fieldOwners)
   | Some int =>
       when (fun _ =>
               negb (bool_decide (is_Some (Internal.fieldOwners int))))
         (assign_internal (fun _ => Internal.set_fieldOwners (Some ∅)))
   end) ;;
  when (fun s => negb (bool_decide (is_Some (Node.fields (node s)))))
    (modify (on_node (Node.set_fields (Some ∅)))) ;;
  (* Check that this field isn't owned by another plugin. *)
  (const! fieldOwner := fun s =>
     get_member (default ∅ (Node.fieldOwners (node s))) fname in
   when (fun _ => truthy_member fieldOwner
                  && negb (member_eq fieldOwner (name plugin)))
     (throw (fun s =>
        FieldOwnedByOther (Node.id (node s)) (name plugin) fname
          fvalue))) ;;
  (* Update node *)
  assign_fields fname fvalue ;;
  assign_internal (fun s int =>
    Internal.set_fieldOwners
      (Some (set_member fname (name plugin)
               (default ∅ (Internal.fieldOwners int)))) int) ;;
  ret (fun s => Action (ADD_FIELD_TO_NODE (Some plugin) traceId (node s))).

(** [actions.createNodeField]: the completion, the node of the argument
    after the call, and the module state after the call. *)
Definition createNodeField (i : FieldInput.t) (plugin : Plugin)
    (traceId : option string) (s : state)
  : completion * Node.t * state :=
  let '(c, f) := call (createNodeField_body i plugin traceId)
                   (mkFrame (FieldInput.node i) s) in
  (c, node f, st f).

(** ** createPage and createLayout *)

(** [const pascalCase = _.flow(_.camelCase, _.upperFirst)] *)
Definition pascalCase (s : string) : string := upperFirst (camelCase s).

(** [s[0] !== `/`] *)
Definition no_initial_slash (s : string) : bool :=
  match s with
  | String c _ => negb (Ascii.eqb c "/"%char)
  | EmptyString => true
  end.

(** [context || {}] *)
Definition context_or_empty (c : option value) : value :=
  match c with
  | Some v => if truthy v then v else VObject []
  | None => VObject []
  end.

(** The page that [createPage] validates and, when valid, emits. *)
Definition internalPage (page : PageInput.t) (S : store) : Page.t :=
  let jsonName := kebabCase (PageInput.path page) +:+ ".json" in
  let internalComponentName :=
    "Component" +:+ pascalCase (PageInput.path page) in
  let '(jsonName, internalComponentName) :=
    if String.eqb jsonName ".json"
    then ("index.json", "ComponentIndex")
    else (jsonName, internalComponentName) in
  let layout :=
    if truthy_str (PageInput.layout page) then PageInput.layout page
    else None in
  (* If no layout is set we try fallback to `/src/layouts/index`. *)
  let layout :=
    if negb (truthy_str layout)
       && negb (length (glob_sync
                  (joinPath [directory S; "src/layouts/index.*"])) =? 0)%nat
    then Some "index"
    else layout in
  let internalPage :=
    {| Page.layout := layout;
       Page.jsonName := jsonName;
       Page.internalComponentName := internalComponentName;
       Page.path := PageInput.path page;
       Page.matchPath := PageInput.matchPath page;
       Page.component := PageInput.component page;
       Page.componentChunkName :=
         generateComponentChunkName (PageInput.component page);
       (* Ensure the page has a context object *)
       Page.context := context_or_empty (PageInput.context page);
       Page.updatedAt := now S |} in
  (* If the path doesn't have an initial forward slash, add it. *)
  if no_initial_slash (Page.path internalPage)
  then Page.set_path ("/" +:+ Page.path internalPage) internalPage
  else internalPage.

(** [actions.createPage]: what is returned, and the module state after
    the call. *)
Definition createPage (page : PageInput.t) (plugin : option Plugin)
    (traceId : option string) (S : store) (s : state)
  : returned * state :=
  let internalPage := internalPage page S in
  match pageSchema internalPage with
  | Some err =>
      (Null,
       log (LogPage internalPage)
         (log (LogValidation err)
            (log (LogText "The upserted page didn't pass validation") s)))
  | None => (Action (CREATE_PAGE plugin traceId internalPage), s)
  end.

(** The layout that [createLayout] validates and, when valid, emits. *)
Definition internalLayout (layout : LayoutInput.t) (S : store)
  : Layout.t :=
  let id :=
    if truthy_str (LayoutInput.id layout)
    then to_key (LayoutInput.id layout)
    else parse_name (LayoutInput.component layout) in
  (* Add a "machine" id as a universal ID to differentiate layout from
     page components. *)
  let machineId := "layout---" +:+ id in
  let componentWrapperPath :=
    joinPath [directory S; ".cache"; "layouts"; id +:+ ".js"] in
  {| Layout.id := id;
     Layout.machineId := machineId;
     Layout.componentWrapperPath := componentWrapperPath;
     Layout.isLayout := true;
     Layout.jsonName := "layout-" +:+ kebabCase id +:+ ".json";
     Layout.internalComponentName :=
       "Component-layout-" +:+ pascalCase id;
     Layout.component := LayoutInput.component layout;
     Layout.componentChunkName :=
       generateComponentChunkName (LayoutInput.component layout);
     (* Ensure the page has a context object *)
     Layout.context := context_or_empty (LayoutInput.context layout) |}.

(** [actions.createLayout] *)
Definition createLayout (layout : LayoutInput.t) (plugin : option Plugin)
    (traceId : option string) (S : store) (s : state)
  : returned * state :=
  let internalLayout := internalLayout layout S in
  match layoutSchema internalLayout with
  | Some err =>
      (Null,
       log (LogLayout internalLayout)
         (log (LogValidation err)
            (log (LogText "The upserted layout didn't pass validation")
               s)))
  | None => (Action (CREATE_LAYOUT plugin traceId internalLayout), s)
  end.
End Creators.

(** * Vocabulary of the properties *)

(** The words of the specification for the child list: de-duplicate,
    preserving first-occurrence order.  The head is kept and removed from
    what follows. *)
Fixpoint dedup_first (l : list string) : list string :=
  match l with
  | [] => []
  | x :: rest => x :: filter (fun y => y ≠ x) (dedup_first rest)
  end.

Section Vocabulary.
Context {E : Env}.

(** The node after line 333: it has an [internal] object. *)
Definition ensure_internal (n : Node.t) : Node.t :=
  match Node.internal n with
  | Some _ => n
  | None => Node.set_internal (Some Internal.empty) n
  end.

(** The node after lines 331-351: the plugin, when there is one, is
    recorded as owner and the id is the one derived for that plugin.
    This is the record that is validated and emitted. *)
Definition prepared (plugin : option Plugin) (n : Node.t) : Node.t :=
  let n0 := ensure_internal n in
  match plugin, Node.internal n0 with
  | Some p, Some i =>
      Node.set_id (createUuid (Node.id n0) (name p))
        (Node.set_internal
           (Some (Internal.set_owner (Some (name p)) i)) n0)
  | _, _ => n0
  end.

(** The input gets as far as the ownership checks: the caller did not
    set [internal.owner], the record passes validation, and it carries
    no [fields]. *)
Definition reaches_checks (plugin : option Plugin) (n : Node.t) : Prop :=
  truthy_str (Node.owner n) = false
  ∧ nodeSchema (prepared plugin n) = None
  ∧ Node.fields n = None.

(** The decision of lines 427-442 on a prepared node. *)
Definition detect (plugin : option Plugin) (traceId : option string)
    (S : store) (n1 : Node.t) : action :=
  if bool_decide (is_Some (getNode S (Node.id n1)))
     && negb (hasNodeChanged S (Node.id n1) (Node.contentDigest n1))
  then TOUCH_NODE plugin traceId (Node.id n1)
  else CREATE_NODE plugin traceId n1.

(** An error of one of the two ownership checks of [createNode]. *)
Definition ownership_error (e : error) : Prop :=
  match e with
  | TypeOwnedByOther _ _ _ _ | NodeOwnedByOther _ _ _ => True
  | _ => False
  end.

(** What [createNode] returns once every check has passed. *)
Definition emit (plugin : option Plugin) (traceId : option string)
    (S : store) (n1 : Node.t) (s1 : state)
  : completion * node_arg * state :=
  (Return (Action (detect plugin traceId S n1)), NodeObject n1, s1).

(** The outcome of the node-owner check of lines 413-424 and of what
    follows it. *)
Definition check_node_owner (p : Plugin) (traceId : option string)
    (S : store) (n1 : Node.t) (s1 : state)
  : completion * node_arg * state :=
  match getNode S (Node.id n1) with
  | None => emit (Some p) traceId S n1 s1
  | Some old =>
      match Node.internal old with
      | None => (Throw (TypeError cannot_read_owner), NodeObject n1, s1)
      | Some i =>
          if strict_eq (Internal.owner i) (Some (name p))
          then emit (Some p) traceId S n1 s1
          else (Throw (NodeOwnedByOther (Node.id n1) (Internal.owner i)
                         (name p)),
                NodeObject n1, s1)
      end
  end.

(** The ownership checks of lines 386-425 let the input through: what
    [typeOwners[type]] evaluates to is falsy or is this plugin's name,
    and a stored node with the id, if any, is owned by this plugin.
    Nothing is asked when no plugin is given. *)
Definition passes_ownership (plugin : option Plugin) (n : Node.t)
    (S : store) (s : state) : Prop :=
  match plugin with
  | None => True
  | Some p =>
      let n1 := prepared plugin n in
      let o := get_member (typeOwners s) (to_key (Node.type n1)) in
      (truthy_member o = false ∨ o = Own (name p))
      ∧ ∀ old, getNode S (Node.id n1) = Some old →
               Node.owner old = Some (name p)
  end.

(** One call of [createNode], and the module state it leaves. *)
Record call_args := mkCall {
  call_arg : node_arg;
  call_plugin : option Plugin;
  call_traceId : option string;
  call_store : store
}.

Definition after (c : call_args) (s : state) : state :=
  (createNode (call_arg c) (call_plugin c) (call_traceId c)
     (call_store c) s).2.

(** The module state after a sequence of calls, in order. *)
Definition after_all (cs : list call_args) (s : state) : state :=
  fold_left (fun s c => after c s) cs s.

(** The console after the deprecation notices of lines 497-512. *)
Definition warnings (i : FieldInput.t) (s : state) : state :=
  let s := if truthy_str (FieldInput.fieldName i)
           then log (Warn fieldName_deprecated) s else s in
  if truthy (FieldInput.fieldValue i)
  then log (Warn fieldValue_deprecated) s else s.

(** The node with the given field-owner and field maps in place. *)
Definition with_maps (n : Node.t) (int : Internal.t)
    (owners : gmap string string) (flds : gmap string value) : Node.t :=
  Node.set_fields (Some flds)
    (Node.set_internal
       (Some (Internal.set_fieldOwners (Some owners) int)) n).

(** The owner recorded for a field of a node, if any. *)
Definition field_owner (n : Node.t) (k : string) : option string :=
  Node.fieldOwners n ≫= (fun m => m !! k).

(** The value of a field of a node, if any. *)
Definition field (n : Node.t) (k : string) : option value :=
  Node.fields n ≫= (fun m => m !! k).

(** What [node.internal.fieldOwners[k]] evaluates to once line 516 has
    made sure that the object exists. *)
Definition field_member (n : Node.t) (k : string) : member :=
  get_member (default ∅ (Node.fieldOwners n)) k.

(** The field-owner and field maps of a node after the check of line
    523 and, when it lets the plugin through, the writes of lines
    537-538. *)
Definition claim_field (plugin : Plugin) (k : string) (v : value)
    (m : gmap string string * gmap string value)
  : gmap string string * gmap string value :=
  let o := get_member m.1 k in
  if truthy_member o && negb (member_eq o (name plugin))
  then m
  else (set_member k (name plugin) m.1, set_member k v m.2).

(** The check of line 523 lets [plugin] write the field [k]. *)
Definition may_write (plugin : Plugin) (n : Node.t) (k : string) : Prop :=
  truthy_member (field_member n k) = false
  ∨ field_member n k = Own (name plugin).



End Vocabulary.

(** ** A sample environment

    One implementation of the collaborators, on which the creators can be
    run on concrete inputs.  Its validators ask for what the package's
    schemas make mandatory: a type and a content digest on a node, a
    component on a page or layout. *)

Fixpoint keep_alnum (s : string) : string :=
  match s with
  | EmptyString => EmptyString
  | String c rest =>
      let n := Ascii.nat_of_ascii c in
      if ((48 <=? n) && (n <=? 57) || (65 <=? n) && (n <=? 90)
          || (97 <=? n) && (n <=? 122))%nat
      then String c (keep_alnum rest)
      else keep_alnum rest
  end.

Definition sample_nodeSchema (n : Node.t) : option string :=
  match Node.type n, Node.contentDigest n with
  | Some _, Some _ => None
  | None, _ => Some "internal.type is required"
  | _, None => Some "internal.contentDigest is required"
  end.

Definition sample_env : Env := {|
  createUuid := fun nodeId pluginName => pluginName +:+ ">" +:+ nodeId;
  kebabCase := keep_alnum;
  camelCase := keep_alnum;
  upperFirst := fun s => s;
  generateComponentChunkName := fun c => "component---" +:+ keep_alnum c;
  joinPath := fun l => String.concat "/" l;
  parse_name := fun c => c;
  glob_sync := fun _ => [];
  nodeSchema := sample_nodeSchema;
  pageSchema := fun p =>
    if String.eqb (Page.component p) EmptyString
    then Some "component is required" else None;
  layoutSchema := fun l =>
    if String.eqb (Layout.component l) EmptyString
    then Some "component is required" else None
|}.

Definition empty_state : state := mkState ∅ [] [].

Definition sample_store (nodes : gmap string Node.t) : store :=
  mkStore nodes "/site" false None 0.

(** A node as a source plugin would submit it. *)
Definition sample_node (nodeId type digest : string) : Node.t :=
  Node.mk nodeId None []
    (Some (Internal.mk None (Some type) (Some digest) None None None))
    None [].

(** The node above as it is stored once [plugin] has created it. *)
Definition stored_node (nodeId type digest plugin : string) : Node.t :=
  Node.mk nodeId None []
    (Some (Internal.mk (Some plugin) (Some type) (Some digest) None None
             None))
    None [].

Definition plugin_P : Plugin := {| name := "source-p" |}.
Definition plugin_Q : Plugin := {| name := "source-q" |}.

(** A store in which plugin [source-p] has created the node that the
    sample environment derives from id [n] for [source-q]. *)
Definition store_with_foreign_node : store :=
  sample_store {[ "source-q>n" := stored_node "source-q>n" "T" "d1" "source-p" ]}.

(** A store in which plugin [source-p] has created its node [n]. *)
Definition store_with_own_node : store :=
  sample_store {[ "source-p>n" := stored_node "source-p>n" "T" "d1" "source-p" ]}.

(** A node that carries the reserved [fields] key. *)
Definition node_with_fields : Node.t :=
  Node.set_fields (Some ∅) (sample_node "n" "T" "d1").

Definition old_to_new : RedirectInput.t :=
  RedirectInput.mk "/old" None None "/new" [].

(** [source-p] adds the field [slug] twice to a stored node. *)
Definition slug_input (v : string) : FieldInput.t :=
  FieldInput.mk (stored_node "n" "T" "d1" "source-q") (Some "slug") None
    VUndefined (VString v).

Definition page_foo : PageInput.t :=
  PageInput.mk "foo" "/site/src/templates/foo.js" None None None.

Definition page_root : PageInput.t :=
  PageInput.mk "/" "/site/src/pages/index.js" None None None.

(** A page without a component, which the sample schema rejects. *)
Definition page_invalid : PageInput.t :=
  PageInput.mk "/broken" EmptyString None None None.

Definition layout_invalid : LayoutInput.t :=
  LayoutInput.mk (Some "main") EmptyString None.

(** [source-q] adds the field [title] to the same stored node. *)
Definition title_input : FieldInput.t :=
  FieldInput.mk (stored_node "n" "T" "d1" "source-q") (Some "title") None
    VUndefined (VString "Hello").

(** A field for a node that has no [internal] object. *)
Definition bare_input : FieldInput.t :=
  FieldInput.mk (Node.mk "bare" None [] None None []) (Some "slug") None
    VUndefined (VString "/a/").

(** A layout without an id, named after its component. *)
Definition layout_valid : LayoutInput.t :=
  LayoutInput.mk None "main" None.

(** A store in which the [prefixPaths] flag is set and no prefix is
    configured. *)
Definition store_flag_only : store := mkStore ∅ "/site" true None 0.

(** A node whose type is called [constructor]. *)
Definition constructor_node : Node.t := sample_node "n" "constructor" "d1".


(** ** The claims of the specification that the code does not meet *)

(** The claim of the specification that a node is touched only by its
    owner: a touch by another plugin yields no [TOUCH_NODE] action. *)
Definition touch_only_by_owner : Prop :=
  ∀ (S : store) (nodeId : string) (old : Node.t) (Q : Plugin),
    getNode S nodeId = Some old →
    Node.owner old ≠ Some (name Q) →
    ∀ traceId payload,
      touchNode nodeId (Some Q) ≠ TOUCH_NODE (Some Q) traceId payload.



(** The claim of the specification that a configured path prefix is
    always put in front of the paths of a redirect. *)
Definition redirect_always_prefixed : Prop :=
  ∀ (r : RedirectInput.t) (S : store) (prefix : string),
    pathPrefix S = Some prefix →
    ∃ payload,
      createRedirect r S = CREATE_REDIRECT payload
      ∧ Redirect.fromPath payload = prefix +:+ RedirectInput.fromPath r
      ∧ Redirect.toPath payload = prefix +:+ RedirectInput.toPath r.

(** * Properties *)

(** ** De-duplication and createParentChildLink *)

Lemma elem_of_baseUniq (x : string) (array result : list string) :
  x ∈ baseUniq result array ↔ x ∈ result ∨ x ∈ array.
Proof.
  revert result; induction array as [|y rest IH]; intros result; simpl.
  - rewrite elem_of_nil. tauto.
  - case_bool_decide as Hy; rewrite IH, ?elem_of_app,
      ?list_elem_of_singleton, elem_of_cons.
    + split; [tauto|]. intros [?|[->|?]]; tauto.
    + tauto.
Qed.

Lemma NoDup_baseUniq (array result : list string) :
  NoDup result → NoDup (baseUniq result array).
Proof.
  revert result; induction array as [|y rest IH]; intros result Hnd; simpl.
  - done.
  - case_bool_decide as Hy; apply IH; [done|].
    apply NoDup_app; repeat split; [done| |apply NoDup_singleton].
    intros z Hz ->%list_elem_of_singleton. done.
Qed.

Lemma baseUniq_snoc (array result : list string) (c : string) :
  baseUniq result (array ++ [c]) =
  baseUniq result array ++
    (if bool_decide (c ∈ baseUniq result array) then [] else [c]).
Proof.
  revert result; induction array as [|y rest IH]; intros result; simpl.
  - case_bool_decide; simpl; by rewrite ?app_nil_r.
  - case_bool_decide; apply IH.
Qed.

Lemma baseUniq_NoDup_id (array result : list string) :
  NoDup (result ++ array) → baseUniq result array = result ++ array.
Proof.
  revert result; induction array as [|y rest IH]; intros result Hnd; simpl.
  - by rewrite app_nil_r.
  - apply NoDup_app in Hnd as Hnd'. destruct Hnd' as (_ & Hdis & _).
    rewrite bool_decide_eq_false_2.
    + rewrite IH; rewrite <- app_assoc; done.
    + intros Hin. apply (Hdis y Hin). left.
Qed.

Lemma baseUniq_dedup_first (array result : list string) :
  baseUniq result array =
  result ++ filter (fun y => y ∉ result) (dedup_first array).
Proof.
  revert result; induction array as [|x rest IH]; intros result; simpl.
  - by rewrite filter_nil, app_nil_r.
  - case_bool_decide as Hx.
    + rewrite IH, filter_cons_False by (intros Hn; by apply Hn).
      f_equal. rewrite list_filter_filter. apply list_filter_iff.
      intros y. split; [|tauto]. intros Hy. split; [done|].
      intros ->. done.
    + rewrite IH, filter_cons_True by done.
      rewrite <- app_assoc. simpl. do 2 f_equal.
      rewrite list_filter_filter. apply list_filter_iff.
      intros y. rewrite elem_of_app, list_elem_of_singleton. tauto.
Qed.

Lemma filter_not_in_nil (l : list string) :
  filter (fun y => y ∉ @nil string) l = l.
Proof.
  induction l as [|x l IH]; [done|].
  rewrite filter_cons_True by apply not_elem_of_nil. by rewrite IH.
Qed.

Lemma uniq_dedup_first (l : list string) : uniq l = dedup_first l.
Proof.
  unfold uniq. rewrite baseUniq_dedup_first. apply filter_not_in_nil.
Qed.

Lemma count_occ_NoDup_1 (l : list string) (x : string) :
  NoDup l → x ∈ l → count_occ String.string_dec l x = 1%nat.
Proof.
  intros Hnd Hin. apply NoDup_ListNoDup in Hnd.
  apply list_elem_of_In in Hin.
  pose proof (proj1 (List.NoDup_count_occ String.string_dec l) Hnd x).
  apply (List.count_occ_In String.string_dec) in Hin. lia.
Qed.

Lemma linked_eq (parent child : Node.t) :
  linked parent child
  = Node.set_children (uniq (Node.children parent ++ [Node.id child])) parent.
Proof. reflexivity. Qed.

Lemma uniq_snoc_present (l : list string) (c : string) :
  NoDup l → c ∈ l → uniq (l ++ [c]) = l.
Proof.
  intros Hnd Hin. unfold uniq. rewrite baseUniq_snoc.
  rewrite (baseUniq_NoDup_id l []) by done. simpl.
  rewrite bool_decide_eq_true_2 by done. apply app_nil_r.
Qed.

(** C6.  [createParentChildLink] is idempotent.  After one link the
    parent's children are the de-duplicated old children, in the order of
    their first occurrences, followed by the child id when it was not
    among them; a second link of the same child changes nothing; and the
    child id occurs exactly once in the result. *)
Theorem createParentChildLink_idempotent (parent child : Node.t)
    (plugin : option Plugin) :
  let once := linked parent child in
  let twice := linked once child in
  createParentChildLink parent child plugin
    = ADD_CHILD_NODE_TO_PARENT_NODE plugin once
  ∧ Node.children once
    = dedup_first (Node.children parent)
      ++ (if bool_decide (Node.id child ∈ Node.children parent)
          then [] else [Node.id child])
  ∧ Node.children once = dedup_first (Node.children parent ++ [Node.id child])
  ∧ twice = once
  ∧ count_occ String.string_dec (Node.children twice) (Node.id child) = 1%nat.
Proof.
  pose proof uniq_dedup_first as Huniq.
  assert (Hone : Node.children (linked parent child)
                 = uniq (Node.children parent ++ [Node.id child])) by done.
  assert (Hin : Node.id child ∈ Node.children (linked parent child)).
  { rewrite Hone. unfold uniq. rewrite elem_of_baseUniq, elem_of_app,
      list_elem_of_singleton. tauto. }
  assert (Hnd : NoDup (Node.children (linked parent child))).
  { rewrite Hone. apply NoDup_baseUniq, NoDup_nil_2. }
  assert (Htwice : linked (linked parent child) child = linked parent child).
  { rewrite (linked_eq (linked parent child)).
    rewrite uniq_snoc_present by (done || by rewrite linked_eq).
    rewrite linked_eq. reflexivity. }
  intros once twice. subst once twice. repeat split.
  - rewrite Hone. unfold uniq. rewrite baseUniq_snoc.
    fold (uniq (Node.children parent)). rewrite Huniq. f_equal.
    rewrite (bool_decide_ext (Node.id child ∈ dedup_first _)
               (Node.id child ∈ Node.children parent)); [done|].
    rewrite <- Huniq. unfold uniq.
    rewrite elem_of_baseUniq, elem_of_nil. tauto.
  - rewrite Hone. apply Huniq.
  - apply Htwice.
  - rewrite Htwice. by apply count_occ_NoDup_1.
Qed.

Example uniq_keeps_first_occurrences :
  uniq ["a"; "b"; "a"; "c"; "b"] = ["a"; "b"; "c"].
Proof. reflexivity. Qed.

(** ** Members of a plain object *)

Lemma inherited_proto (k : string) :
  String.eqb k "__proto__" = true → inherited k = true.
Proof. intros ->%String.eqb_eq. by vm_compute. Qed.

(** A name that [Object.prototype] does not know is looked up among the
    own properties alone. *)
Lemma get_member_ordinary (obj : gmap string string) (k : string) :
  inherited k = false →
  get_member obj k = match obj !! k with
                     | Some s => Own s
                     | None => Missing
                     end.
Proof. intros Hk. unfold get_member. by rewrite Hk. Qed.

Lemma get_member_Missing (obj : gmap string string) (k : string) :
  get_member obj k = Missing ↔ obj !! k = None ∧ inherited k = false.
Proof.
  unfold get_member.
  destruct (obj !! k), (inherited k); intuition congruence.
Qed.

Lemma get_member_Own (obj : gmap string string) (k o : string) :
  get_member obj k = Own o ↔ obj !! k = Some o.
Proof.
  unfold get_member.
  destruct (obj !! k), (inherited k); intuition congruence.
Qed.

(** A member that is falsy is an own empty string or is missing. *)
Lemma truthy_member_false (obj : gmap string string) (k : string) :
  truthy_member (get_member obj k) = false →
  truthy_str (obj !! k) = false
  ∧ (is_Some (obj !! k) ∨ inherited k = false).
Proof.
  unfold get_member.
  destruct (obj !! k) as [o|]; [by eauto|].
  destruct (inherited k); [done|]. by eauto.
Qed.

Lemma truthy_member_Own (o : string) :
  o ≠ EmptyString → truthy_member (Own o) = true.
Proof. intros Ho. simpl. by destruct o. Qed.

Lemma member_eq_true (x : member) (o : string) :
  member_eq x o = true ↔ x = Own o.
Proof.
  destruct x; simpl; [|done..].
  rewrite bool_decide_eq_true. intuition congruence.
Qed.

Lemma member_eq_false (x : member) (o : string) :
  member_eq x o = false ↔ x ≠ Own o.
Proof.
  rewrite <- member_eq_true. by destruct (member_eq x o).
Qed.

(** An assignment that finds an own property, or whose name is not
    [__proto__], writes the own property. *)
Lemma set_member_insert {A} (k : string) (v : A) (obj : gmap string A) :
  is_Some (obj !! k) ∨ String.eqb k "__proto__" = false →
  set_member k v obj = <[k := v]> obj.
Proof.
  intros H. unfold set_member.
  destruct (String.eqb k "__proto__"); [|done]. simpl.
  destruct H as [H|H]; [|done]. by rewrite bool_decide_eq_true_2.
Qed.

Lemma set_member_ordinary {A} (k : string) (v : A) (obj : gmap string A) :
  inherited k = false → set_member k v obj = <[k := v]> obj.
Proof.
  intros Hk. apply set_member_insert. right.
  destruct (String.eqb k "__proto__") eqn:Heq; [|done].
  apply inherited_proto in Heq. congruence.
Qed.

(** The assignment that follows a read which found the member falsy. *)
Lemma set_member_falsy (obj : gmap string string) (k v : string) :
  truthy_member (get_member obj k) = false →
  set_member k v obj = <[k := v]> obj.
Proof.
  intros [_ [H|H]]%truthy_member_false.
  - apply set_member_insert. by left.
  - by apply set_member_ordinary.
Qed.

Lemma lookup_set_member_ne {A} (k j : string) (v : A)
    (obj : gmap string A) :
  k ≠ j → set_member k v obj !! j = obj !! j.
Proof.
  intros Hne. unfold set_member.
  destruct (_ && _); [done|]. by rewrite lookup_insert_ne.
Qed.

Lemma get_member_set_ne (k j v : string) (obj : gmap string string) :
  k ≠ j → get_member (set_member k v obj) j = get_member obj j.
Proof.
  intros Hne. unfold get_member. by rewrite lookup_set_member_ne.
Qed.

Lemma set_member_idemp {A} (k : string) (v : A) (obj : gmap string A) :
  set_member k v (set_member k v obj) = set_member k v obj.
Proof.
  unfold set_member at 2 3.
  destruct (_ && _) eqn:Hc.
  - unfold set_member. by rewrite Hc.
  - rewrite set_member_insert.
    + apply insert_insert_eq.
    + left. rewrite lookup_insert_eq. by eexists.
Qed.

Lemma set_member_comm {A} (k j : string) (v w : A)
    (obj : gmap string A) :
  k ≠ j →
  set_member k v (set_member j w obj) = set_member j w (set_member k v obj).
Proof.
  intros Hne. unfold set_member at 1 3.
  rewrite !lookup_set_member_ne by done. unfold set_member.
  destruct (String.eqb k "__proto__" && _),
    (String.eqb j "__proto__" && _); try done.
  by apply insert_insert_ne.
Qed.

(** ** createNode *)

Section CreateNode.
Context {E : Env}.

Lemma strict_eq_true (a b : option string) :
  strict_eq a b = true ↔ a = b.
Proof. unfold strict_eq. apply bool_decide_eq_true. Qed.

Lemma strict_eq_false (a b : option string) :
  strict_eq a b = false ↔ a ≠ b.
Proof. unfold strict_eq. apply bool_decide_eq_false. Qed.

Lemma truthy_str_Some (o : string) :
  o ≠ EmptyString → truthy_str (Some o) = true.
Proof. intros Ho. simpl. by destruct o. Qed.

(** [createNode] on an object, as the tree of its tests. *)
Lemma createNode_object (n : Node.t) (plugin : option Plugin)
    (traceId : option string) (S : store) (s : state) :
  createNode (NodeObject n) plugin traceId S s =
  let n0 := ensure_internal n in
  if truthy_str (Node.owner n0)
  then (Exit 1, NodeObject n0,
        log (LogText owner_is_automatic) (log (LogNode n0) s))
  else
    let n1 := prepared plugin n in
    match nodeSchema n1 with
    | Some err =>
        (Return (Action VALIDATION_ERROR), NodeObject n1,
         log (LogNode n1)
           (log (LogValidation err) (log (LogText node_invalid) s)))
    | None =>
        if bool_decide (is_Some (Node.fields n1))
        then (Throw (ReservedFields n1 plugin), NodeObject n1, s)
        else
          let s1 := track (Node.id n1) s in
          match plugin with
          | None => emit None traceId S n1 s1
          | Some p =>
              let t := to_key (Node.type n1) in
              let o := get_member (typeOwners s) t in
              if truthy_member o
              then if member_eq o (name p)
                   then check_node_owner p traceId S n1 s1
                   else (Throw (TypeOwnedByOther (name p) t o n1),
                         NodeObject n1, s1)
              else check_node_owner p traceId S n1
                     (set_typeOwners
                        (set_member t (name p) (typeOwners s)) s1)
          end
    end.
Proof.
  unfold createNode, call, createNode_body, seq, when, modify, exit,
    const, skip, ret, throw, assign_internal, on_node, on_state, ifelse.
  cbv zeta. unfold prepared, ensure_internal, Node.owner.
  destruct n as [i p ch [int|] f d]; simpl;
    [destruct (truthy_str (Internal.owner int)); simpl; [reflexivity|] | ].
  all: destruct plugin as [pl|]; simpl.
  all: destruct (nodeSchema _); simpl; [reflexivity|].
  all: destruct f; simpl; [reflexivity|].
  all: unfold ownership, seq, when, modify, exit, const, skip, ret, throw,
         ifelse, on_state, check_node_owner, emit, detect, Node.type; simpl.
  all: repeat match goal with
       | |- context [truthy_member ?x] =>
           destruct (truthy_member x) eqn:?; simpl
       | |- context [member_eq ?x ?y] =>
           destruct (member_eq x y) eqn:?; simpl
       | |- context [strict_eq ?x ?y] =>
           destruct (strict_eq x y) eqn:?; simpl
       | |- context [getNode ?x ?y] =>
           destruct (getNode x y) as [?|] eqn:?; simpl
       | |- context [Node.internal ?o] =>
           destruct (Node.internal o) eqn:?; simpl
       | |- context [hasNodeChanged ?x ?y ?z] =>
           destruct (hasNodeChanged x y z) eqn:?; simpl
       end; try reflexivity.
Qed.

Lemma ensure_internal_same (n : Node.t) :
  Node.id (ensure_internal n) = Node.id n
  ∧ Node.owner (ensure_internal n) = Node.owner n
  ∧ Node.fields (ensure_internal n) = Node.fields n.
Proof. by destruct n as [? ? ? [?|] ? ?]. Qed.

Lemma prepared_fields (plugin : option Plugin) (n : Node.t) :
  Node.fields (prepared plugin n) = Node.fields n.
Proof. by destruct plugin, n as [? ? ? [?|] ? ?]. Qed.

Lemma prepared_type (plugin : option Plugin) (n : Node.t) :
  Node.type (prepared plugin n) = Node.type n.
Proof. by destruct plugin, n as [? ? ? [?|] ? ?]. Qed.

Lemma prepared_Some (p : Plugin) (n : Node.t) :
  Node.id (prepared (Some p) n) = createUuid (Node.id n) (name p)
  ∧ Node.owner (prepared (Some p) n) = Some (name p).
Proof. by destruct n as [? ? ? [?|] ? ?]. Qed.

Lemma fields_None_not_Some (n : Node.t) :
  Node.fields n = None → bool_decide (is_Some (Node.fields n)) = false.
Proof. intros ->. reflexivity. Qed.

(** [createNode] on an input that gets as far as the ownership checks. *)
Lemma createNode_reaching (n : Node.t) (plugin : option Plugin)
    (traceId : option string) (S : store) (s : state) :
  reaches_checks plugin n →
  createNode (NodeObject n) plugin traceId S s =
  let n1 := prepared plugin n in
  let s1 := track (Node.id n1) s in
  match plugin with
  | None => emit None traceId S n1 s1
  | Some p =>
      let t := to_key (Node.type n1) in
      let o := get_member (typeOwners s) t in
      if truthy_member o
      then if member_eq o (name p)
           then check_node_owner p traceId S n1 s1
           else (Throw (TypeOwnedByOther (name p) t o n1),
                 NodeObject n1, s1)
      else check_node_owner p traceId S n1
             (set_typeOwners (set_member t (name p) (typeOwners s)) s1)
  end.
Proof.
  intros (Ho & Hv & Hf). rewrite createNode_object. cbv zeta.
  destruct (ensure_internal_same n) as (_ & -> & _). rewrite Ho, Hv.
  rewrite prepared_fields, (fields_None_not_Some n Hf). reflexivity.
Qed.

(** C10.  Without a plugin [createNode] performs neither ownership
    check: the type table is left as it was and no ownership error is
    thrown, whatever the table and the stored node say; the node keeps
    the id it was given and the owner it had, which is none whenever an
    action is returned; and an input that gets as far as the checks is
    answered by change detection alone. *)
Theorem createNode_without_plugin (arg : node_arg)
    (traceId : option string) (S : store) (s : state) :
  let '(c, arg', s') := createNode arg None traceId S s in
  typeOwners s' = typeOwners s
  ∧ (∀ e, c = Throw e → ¬ ownership_error e)
  ∧ match arg, arg' with
    | NodeObject n, NodeObject n' =>
        Node.id n' = Node.id n
        ∧ Node.owner n' = Node.owner n
        ∧ (∀ a, c = Return (Action a) → truthy_str (Node.owner n') = false)
        ∧ (reaches_checks None n →
           c = Return (Action (detect None traceId S (prepared None n))))
    | NotObject v, NotObject v' => v = v' ∧ c = Return Undefined
    | _, _ => False
    end.
Proof.
  destruct arg as [n|v]; [|by simpl].
  rewrite createNode_object. cbv zeta.
  change (prepared None n) with (ensure_internal n).
  destruct (ensure_internal_same n) as (Hid & Hown & Hfld).
  destruct (truthy_str (Node.owner (ensure_internal n))) eqn:Ho.
  { rewrite Hown in Ho. repeat split; try done.
    intros (Ho' & _). congruence. }
  destruct (nodeSchema (ensure_internal n)) as [err|] eqn:Hv.
  { repeat split; try done. intros (_ & Hv' & _).
    change (prepared None n) with (ensure_internal n) in Hv'.
    congruence. }
  case_bool_decide as Hf.
  { repeat split; try done.
    - intros e [= <-]. simpl. tauto.
    - intros (_ & _ & Hf'). rewrite Hfld, Hf' in Hf. by destruct Hf. }
  unfold emit. repeat split; done.
Qed.

Lemma check_node_owner_passes (p : Plugin) (traceId : option string)
    (S : store) (n1 : Node.t) (s1 : state) :
  (∀ old, getNode S (Node.id n1) = Some old →
          Node.owner old = Some (name p)) →
  check_node_owner p traceId S n1 s1 = emit (Some p) traceId S n1 s1.
Proof.
  intros Hold. unfold check_node_owner.
  destruct (getNode S (Node.id n1)) as [old|]; [|done].
  specialize (Hold old eq_refl). unfold Node.owner in Hold.
  destruct (Node.internal old) as [i|]; [|done]. simpl in Hold.
  by rewrite (proj2 (strict_eq_true _ _) Hold).
Qed.

Lemma createNode_passing (n : Node.t) (plugin : option Plugin)
    (traceId : option string) (S : store) (s : state) :
  reaches_checks plugin n → passes_ownership plugin n S s →
  ∃ s', createNode (NodeObject n) plugin traceId S s
        = emit plugin traceId S (prepared plugin n) s'.
Proof.
  intros Hr Hp. rewrite createNode_reaching by done. cbv zeta.
  destruct plugin as [p|]; [|by eexists].
  destruct Hp as (Ht & Hold). cbv zeta in Ht.
  destruct (truthy_member _) eqn:Ho.
  - destruct Ht as [Ht|Ht]; [done|].
    rewrite (proj2 (member_eq_true _ _) Ht).
    rewrite check_node_owner_passes by done. by eexists.
  - rewrite check_node_owner_passes by done. by eexists.
Qed.

Lemma detect_cases (plugin : option Plugin) (traceId : option string)
    (S : store) (n1 : Node.t) :
  detect plugin traceId S n1 =
  match getNode S (Node.id n1) with
  | Some old =>
      if decide (Node.contentDigest old = Node.contentDigest n1)
      then TOUCH_NODE plugin traceId (Node.id n1)
      else CREATE_NODE plugin traceId n1
  | None => CREATE_NODE plugin traceId n1
  end.
Proof.
  unfold detect, hasNodeChanged.
  destruct (getNode S (Node.id n1)) as [old|]; [|done]. simpl.
  rewrite negb_involutive. unfold strict_eq.
  by destruct (decide _); [rewrite bool_decide_eq_true_2
                          |rewrite bool_decide_eq_false_2].
Qed.

(** C3.  An input that passes validation and the ownership checks is
    answered by change detection on the id the node is emitted with: a
    stored node with that id and the same digest gives [TOUCH_NODE] with
    the id as payload; a stored node with another digest, or no stored
    node, gives [CREATE_NODE] with the node as payload. *)
Theorem createNode_change_detection (n : Node.t)
    (plugin : option Plugin) (traceId : option string) (S : store)
    (s : state) :
  reaches_checks plugin n →
  passes_ownership plugin n S s →
  let n1 := prepared plugin n in
  let c := (createNode (NodeObject n) plugin traceId S s).1.1 in
  (∀ old, nodes S !! Node.id n1 = Some old →
          Node.contentDigest old = Node.contentDigest n1 →
          c = Return (Action (TOUCH_NODE plugin traceId (Node.id n1))))
  ∧ (∀ old, nodes S !! Node.id n1 = Some old →
            Node.contentDigest old ≠ Node.contentDigest n1 →
            c = Return (Action (CREATE_NODE plugin traceId n1)))
  ∧ (nodes S !! Node.id n1 = None →
     c = Return (Action (CREATE_NODE plugin traceId n1))).
Proof.
  intros Hr Hp n1 c.
  destruct (createNode_passing n plugin traceId S s Hr Hp) as (s' & Heq).
  subst c. rewrite Heq. unfold emit. simpl. rewrite detect_cases.
  fold n1. unfold getNode. repeat split.
  - intros old -> Hd. by rewrite decide_True.
  - intros old -> Hd. by rewrite decide_False.
  - by intros ->.
Qed.

(** C1, as the code has it.  [createNode] by a plugin that is not the
    recorded owner of the stored node with the derived id never returns
    a create or touch action, and throws once the input has passed
    validation; so an action it returns for a plugin and an id that is
    already stored always names the stored owner. *)
Theorem createNode_foreign_node_rejected (n : Node.t) (p : Plugin)
    (traceId : option string) (S : store) (s : state) (old : Node.t) :
  nodes S !! createUuid (Node.id n) (name p) = Some old →
  Node.owner old ≠ Some (name p) →
  let c := (createNode (NodeObject n) (Some p) traceId S s).1.1 in
  (∀ a, c = Return (Action a) → a = VALIDATION_ERROR)
  ∧ (reaches_checks (Some p) n → ∃ e, c = Throw e).
Proof.
  intros Hold Hown c.
  assert (Hcheck : ∀ s1, ∃ e,
    (check_node_owner p traceId S (prepared (Some p) n) s1).1.1
    = Throw e).
  { intros s1. unfold check_node_owner, getNode.
    destruct (prepared_Some p n) as (-> & _). rewrite Hold.
    unfold Node.owner in Hown.
    destruct (Node.internal old) as [i|]; [|by eexists]. simpl in Hown.
    rewrite (proj2 (strict_eq_false _ _) Hown). by eexists. }
  subst c. rewrite createNode_object. cbv zeta.
  destruct (truthy_str (Node.owner (ensure_internal n))) eqn:Ho.
  { split; [done|]. intros (Ho' & _).
    destruct (ensure_internal_same n) as (_ & Ho2 & _). congruence. }
  destruct (nodeSchema (prepared (Some p) n)) as [err|] eqn:Hv.
  { split; [by intros a [= <-]|]. intros (_ & Hv' & _). congruence. }
  case_bool_decide as Hf.
  { split; [done|]. by eexists. }
  set (o := get_member (typeOwners s) _).
  match goal with
  | |- context [(?X).1.1] => assert (Hthrow : ∃ e, X.1.1 = Throw e)
  end.
  { destruct (truthy_member o); [destruct (member_eq o _)|];
      try apply Hcheck. by eexists. }
  destruct Hthrow as (e & He). rewrite He.
  split; [done|]. by eexists.
Qed.

Lemma check_node_owner_state (p : Plugin) (traceId : option string)
    (S : store) (n1 : Node.t) (s1 : state) :
  (check_node_owner p traceId S n1 s1).2 = s1.
Proof.
  unfold check_node_owner, emit.
  repeat case_match; reflexivity.
Qed.

(** A type that has a (non-empty) owner keeps it through any call. *)
Lemma type_owner_stable (c : call_args) (s : state) (t o : string) :
  o ≠ EmptyString →
  typeOwners s !! t = Some o → typeOwners (after c s) !! t = Some o.
Proof.
  intros Ho Ht. unfold after. destruct c as [[n|v] plugin traceId S];
    cbn [call_arg call_plugin call_traceId call_store]; [|done].
  rewrite createNode_object. cbv zeta.
  destruct (truthy_str (Node.owner _)); [done|].
  destruct (nodeSchema _); [done|].
  case_bool_decide; [done|].
  destruct plugin as [p|]; [|done].
  set (t' := to_key _).
  destruct (truthy_member (get_member (typeOwners s) t')) eqn:Hc.
  - destruct (member_eq _ _); [|done].
    by rewrite check_node_owner_state.
  - rewrite check_node_owner_state. simpl.
    rewrite lookup_set_member_ne; [done|]. intros <-.
    rewrite (proj2 (get_member_Own _ _ _) Ht), truthy_member_Own in Hc;
      done.
Qed.

Lemma type_owner_stable_all (cs : list call_args) (s : state)
    (t o : string) :
  o ≠ EmptyString →
  typeOwners s !! t = Some o → typeOwners (after_all cs s) !! t = Some o.
Proof.
  intros Ho. revert s. induction cs as [|c cs IH]; intros s Ht; [done|].
  simpl. apply IH. by apply type_owner_stable.
Qed.

(** C2, where the code departs from it.  A type that no plugin has
    claimed and whose name is the name of a member of [Object.prototype]
    ([constructor], [toString], [valueOf], ...) is refused to the first
    plugin that submits a node of it: [typeOwners[type]] evaluates to the
    inherited member, which is truthy and is not the plugin's name, so
    the call throws the type-ownership error and records no owner. *)
Theorem createNode_inherited_type_name_throws (P : Plugin) (n : Node.t)
    (traceId : option string) (S : store) (s : state) :
  reaches_checks (Some P) n →
  inherited (to_key (Node.type n)) = true →
  typeOwners s !! to_key (Node.type n) = None →
  let t := to_key (Node.type n) in
  let n1 := prepared (Some P) n in
  createNode (NodeObject n) (Some P) traceId S s
  = (Throw (TypeOwnedByOther (name P) t Inherited n1), NodeObject n1,
     track (Node.id n1) s)
  ∧ typeOwners (after (mkCall (NodeObject n) (Some P) traceId S) s) !! t
    = None.
Proof.
  intros Hr Hi Hfree t n1.
  assert (Hcall : createNode (NodeObject n) (Some P) traceId S s
    = (Throw (TypeOwnedByOther (name P) t Inherited n1), NodeObject n1,
       track (Node.id n1) s)).
  { rewrite createNode_reaching by done. cbv zeta.
    rewrite prepared_type. fold t n1 in Hfree, Hi |- *.
    unfold get_member. by rewrite Hfree, Hi. }
  split; [done|]. unfold after.
  cbn [call_arg call_plugin call_traceId call_store]. by rewrite Hcall.
Qed.

(** X22.  Type ownership is first come, first served.  When a plugin [P]
    (with a name) submits a node of a type [t] for which [typeOwners[t]]
    is falsy (so [t] is not the name of a member of [Object.prototype])
    and the node gets as far as the ownership checks, [P] is recorded as
    the owner of [t]; the record survives every later sequence of calls;
    a later [createNode] of type [t] by [P] leaves the table as it is,
    passes the type check and, when the node-owner check passes too,
    returns the action of change detection; and a later [createNode] of
    type [t] by a plugin with another name throws the type-ownership
    error, whatever the id of its node and whatever the store holds. *)
Theorem type_ownership_first_come (P : Plugin) (n : Node.t)
    (traceId : option string) (S : store) (s : state)
    (later : list call_args) :
  name P ≠ EmptyString →
  reaches_checks (Some P) n →
  truthy_member (get_member (typeOwners s) (to_key (Node.type n))) = false →
  let t := to_key (Node.type n) in
  let s1 := after (mkCall (NodeObject n) (Some P) traceId S) s in
  let s2 := after_all later s1 in
  typeOwners s1 !! t = Some (name P)
  ∧ typeOwners s2 !! t = Some (name P)
  ∧ ∀ (Q : Plugin) (m : Node.t) (traceId' : option string) (S' : store),
      reaches_checks (Some Q) m →
      to_key (Node.type m) = t →
      let m1 := prepared (Some Q) m in
      let '(c, arg', s3) :=
        createNode (NodeObject m) (Some Q) traceId' S' s2 in
      typeOwners s3 = typeOwners s2
      ∧ (name Q = name P →
         (∀ e, c = Throw e →
               ∀ pn ty o nd, e ≠ TypeOwnedByOther pn ty o nd)
         ∧ ((∀ old, getNode S' (Node.id m1) = Some old →
                    Node.owner old = Some (name P)) →
            c = Return (Action (detect (Some Q) traceId' S' m1))))
      ∧ (name Q ≠ name P →
         c = Throw (TypeOwnedByOther (name Q) t (Own (name P)) m1)
         ∧ arg' = NodeObject m1).
Proof.
  intros HP Hr Hfree t s1 s2.
  assert (H1 : typeOwners s1 !! t = Some (name P)).
  { subst s1. unfold after.
    cbn [call_arg call_plugin call_traceId call_store].
    rewrite createNode_reaching by done.
    cbv zeta. rewrite prepared_type. fold t in Hfree |- *. rewrite Hfree.
    rewrite check_node_owner_state. simpl.
    rewrite set_member_falsy by done. apply lookup_insert_eq. }
  assert (H2 : typeOwners s2 !! t = Some (name P)).
  { subst s2. by apply type_owner_stable_all. }
  split; [done|]. split; [done|].
  intros Q m traceId' S' Hm Hty m1.
  rewrite createNode_reaching by done. cbv zeta. fold m1.
  subst m1. rewrite prepared_type, Hty.
  rewrite (proj2 (get_member_Own _ _ _) H2).
  rewrite truthy_member_Own by done.
  destruct (member_eq (Own (name P)) (name Q)) eqn:Heq.
  - apply member_eq_true in Heq. injection Heq as Heq.
    pose proof (check_node_owner_state Q traceId' S'
                  (prepared (Some Q) m)
                  (track (Node.id (prepared (Some Q) m)) s2)) as Hst.
    destruct (check_node_owner _ _ _ _ _) as [[c arg'] s3] eqn:Hc.
    simpl in Hst. subst s3. split; [done|]. split; [|congruence].
    intros _. split.
    + intros e -> pn ty o nd ->. revert Hc. unfold check_node_owner, emit.
      repeat case_match; congruence.
    + intros Hold. rewrite check_node_owner_passes in Hc.
      * unfold emit in Hc. injection Hc as <- _. reflexivity.
      * intros old Ho. rewrite <- Heq. by apply Hold.
  - apply member_eq_false in Heq. split; [done|]. split; [|done].
    intros Hn. congruence.
Qed.

End CreateNode.

(** ** createNodeField *)

Section CreateNodeField.
Context {E : Env}.

(** [createNodeField], as the tree of its tests. *)
Lemma createNodeField_cases (i : FieldInput.t) (plugin : Plugin)
    (traceId : option string) (s : state) :
  createNodeField i plugin traceId s =
  let n := FieldInput.node i in
  let s0 := warnings i s in
  match Node.internal n with
  | None => (Throw (TypeError cannot_read_fieldOwners), n, s0)
  | Some int =>
      let owners := default ∅ (Internal.fieldOwners int) in
      let flds := default ∅ (Node.fields n) in
      let k := to_key (field_name i) in
      let o := get_member owners k in
      if truthy_member o && negb (member_eq o (name plugin))
      then (Throw (FieldOwnedByOther (Node.id n) (name plugin) k
                     (field_value i)),
            with_maps n int owners flds, s0)
      else
        let n1 := with_maps n int (set_member k (name plugin) owners)
                    (set_member k (field_value i) flds) in
        (Return (Action (ADD_FIELD_TO_NODE (Some plugin) traceId n1)),
         n1, s0)
  end.
Proof.
  unfold createNodeField, call, createNodeField_body, seq, when, modify,
    const, ret, throw, assign_internal, assign_fields, on_node, on_state,
    warnings, with_maps, Node.fieldOwners.
  cbv zeta.
  destruct i as [[nid par ch [[o t d mt ct [fo|]]|] [f|] dat] nm fn fv v];
    simpl;
    destruct (truthy_str fn); simpl; destruct (truthy fv); simpl;
    try reflexivity;
    repeat match goal with
      | |- context [truthy_member ?x] =>
          destruct (truthy_member x) eqn:?; simpl
      | |- context [member_eq ?x ?y] =>
          destruct (member_eq x y) eqn:?; simpl
      end; try reflexivity.
Qed.

Lemma with_maps_same (n : Node.t) (int : Internal.t)
    (owners : gmap string string) (flds : gmap string value) :
  Node.internal n = Some int →
  Internal.fieldOwners int = Some owners →
  Node.fields n = Some flds →
  with_maps n int owners flds = n.
Proof.
  destruct n as [? ? ? ? ? ?], int as [? ? ? ? ? ?]. simpl.
  by intros [= ->] -> ->.
Qed.

Lemma with_maps_projections (n : Node.t) (int : Internal.t)
    (owners : gmap string string) (flds : gmap string value) :
  Node.internal n = Some int →
  let n' := with_maps n int owners flds in
  Node.id n' = Node.id n
  ∧ Node.owner n' = Node.owner n
  ∧ Node.fields n' = Some flds
  ∧ Node.fieldOwners n' = Some owners
  ∧ Node.internal n'
    = Some (Internal.set_fieldOwners (Some owners) int).
Proof.
  destruct n as [? ? ? ? ? ?], int as [? ? ? ? ? ?]. simpl.
  by intros [= ->].
Qed.

Lemma field_member_internal (n : Node.t) (int : Internal.t) (k : string) :
  Node.internal n = Some int →
  field_member n k = get_member (default ∅ (Internal.fieldOwners int)) k.
Proof.
  intros Hint. unfold field_member, Node.fieldOwners. by rewrite Hint.
Qed.

(** The owner recorded as an own property is what the check reads. *)
Lemma field_member_owner (n : Node.t) (k o : string) :
  field_member n k = Own o ↔ field_owner n k = Some o.
Proof.
  unfold field_member, field_owner. rewrite get_member_Own.
  by destruct (Node.fieldOwners n).
Qed.

(** [createNodeField] by the plugin that owns the field, or on a field
    for which [fieldOwners[name]] is falsy. *)
Lemma createNodeField_granted (i : FieldInput.t) (plugin : Plugin)
    (traceId : option string) (s : state) (int : Internal.t) :
  let n := FieldInput.node i in
  let k := to_key (field_name i) in
  Node.internal n = Some int →
  may_write plugin n k →
  let n1 := with_maps n int
              (set_member k (name plugin)
                 (default ∅ (Internal.fieldOwners int)))
              (set_member k (field_value i) (default ∅ (Node.fields n))) in
  createNodeField i plugin traceId s
  = (Return (Action (ADD_FIELD_TO_NODE (Some plugin) traceId n1)), n1,
     warnings i s).
Proof.
  intros n k Hint Hown n1. rewrite createNodeField_cases. cbv zeta.
  fold n k. rewrite Hint.
  unfold may_write in Hown.
  rewrite (field_member_internal n int k Hint) in Hown.
  destruct Hown as [->| ->]; [done|].
  rewrite (proj2 (member_eq_true _ _) eq_refl).
  by rewrite andb_false_r.
Qed.

(** [createNodeField] on a field that another plugin owns. *)
Lemma createNodeField_denied (i : FieldInput.t) (plugin : Plugin)
    (traceId : option string) (s : state) (o : string) :
  let n := FieldInput.node i in
  let k := to_key (field_name i) in
  field_owner n k = Some o →
  o ≠ EmptyString → o ≠ name plugin →
  is_Some (Node.fields n) →
  createNodeField i plugin traceId s
  = (Throw (FieldOwnedByOther (Node.id n) (name plugin) k (field_value i)),
     n, warnings i s).
Proof.
  intros n k Hown Ho Hne [flds Hf]. rewrite createNodeField_cases.
  cbv zeta. fold n k. unfold field_owner, Node.fieldOwners in Hown.
  destruct (Node.internal n) as [int|] eqn:Hint; [|done]. simpl in Hown.
  destruct (Internal.fieldOwners int) as [owners|] eqn:Hfo; [|done].
  simpl in *. rewrite (proj2 (get_member_Own _ _ _) Hown), Hf.
  rewrite truthy_member_Own by done.
  rewrite (proj2 (member_eq_false (Own o) (name plugin))) by congruence.
  simpl. by rewrite with_maps_same.
Qed.

(** [createNodeField] on a field that nobody has claimed and whose name
    [Object.prototype] knows. *)
Lemma createNodeField_inherited (i : FieldInput.t) (plugin : Plugin)
    (traceId : option string) (s : state) (int : Internal.t) :
  let n := FieldInput.node i in
  let k := to_key (field_name i) in
  Node.internal n = Some int →
  inherited k = true →
  field_owner n k = None →
  createNodeField i plugin traceId s
  = (Throw (FieldOwnedByOther (Node.id n) (name plugin) k (field_value i)),
     with_maps n int (default ∅ (Internal.fieldOwners int))
       (default ∅ (Node.fields n)),
     warnings i s).
Proof.
  intros n k Hint Hk Hown. rewrite createNodeField_cases. cbv zeta.
  fold n k. rewrite Hint.
  assert (Hm : get_member (default ∅ (Internal.fieldOwners int)) k
               = Inherited).
  { unfold field_owner, Node.fieldOwners in Hown. rewrite Hint in Hown.
    simpl in Hown. unfold get_member.
    destruct (Internal.fieldOwners int) as [owners|]; simpl in *.
    - by rewrite Hown, Hk.
    - by rewrite lookup_empty, Hk. }
  by rewrite Hm.
Qed.

(** C5, where the code departs from it.  A field that no plugin has
    claimed and whose name is the name of a member of [Object.prototype]
    ([constructor], [toString], [valueOf], ...) cannot be added by any
    plugin: [fieldOwners[name]] evaluates to the inherited member, which
    is truthy and is not the plugin's name, so the first call throws the
    field-ownership error.  The node is left with its (possibly just
    created, empty) [fields] and [fieldOwners] objects, with no owner
    recorded for the field. *)
Theorem createNodeField_inherited_field_name_throws (P : Plugin)
    (n : Node.t) (k : string) (v : value) (traceId : option string)
    (s : state) (int : Internal.t) :
  Node.internal n = Some int →
  inherited k = true →
  field_owner n k = None →
  let '(c, n', s') :=
    createNodeField (FieldInput.mk n (Some k) None VUndefined v) P
      traceId s in
  c = Throw (FieldOwnedByOther (Node.id n) (name P) k v)
  ∧ n' = with_maps n int (default ∅ (Internal.fieldOwners int))
           (default ∅ (Node.fields n))
  ∧ field_owner n' k = None
  ∧ s' = s.
Proof.
  intros Hint Hk Hown.
  rewrite (createNodeField_inherited
             (FieldInput.mk n (Some k) None VUndefined v) P traceId s int)
    by done.
  cbn [FieldInput.node]. repeat split.
  destruct (with_maps_projections n int
              (default ∅ (Internal.fieldOwners int))
              (default ∅ (Node.fields n)) Hint) as (_ & _ & _ & Hfo & _).
  unfold field_owner in *. rewrite Hfo. simpl.
  unfold Node.fieldOwners in Hown. rewrite Hint in Hown. simpl in Hown.
  by destruct (Internal.fieldOwners int).
Qed.

(** X23.  A plugin (with a name) that adds a field other than
    [__proto__] for which [fieldOwners[name]] is falsy or its own name
    becomes the owner of the field and the field holds the value given;
    when it adds the same field again the call succeeds again and the
    later value replaces the earlier one; and from then on
    [createNodeField] on that field by a plugin with another name
    throws, whatever value it supplies, and leaves the node as it
    was. *)
Theorem createNodeField_last_write_wins (P : Plugin) (n : Node.t)
    (k : string) (v1 v2 : value) (t1 t2 : option string) (s : state)
    (int : Internal.t) :
  name P ≠ EmptyString →
  Node.internal n = Some int →
  may_write P n k →
  k ≠ "__proto__" →
  let '(c1, n1, s1) :=
    createNodeField (FieldInput.mk n (Some k) None VUndefined v1) P t1 s in
  let '(c2, n2, s2) :=
    createNodeField (FieldInput.mk n1 (Some k) None VUndefined v2) P t2
      s1 in
  c1 = Return (Action (ADD_FIELD_TO_NODE (Some P) t1 n1))
  ∧ field_owner n1 k = Some (name P)
  ∧ field n1 k = Some v1
  ∧ c2 = Return (Action (ADD_FIELD_TO_NODE (Some P) t2 n2))
  ∧ field_owner n2 k = Some (name P)
  ∧ field n2 k = Some v2
  ∧ ∀ (Q : Plugin) (v3 : value) (t3 : option string) (s3 : state),
      name Q ≠ name P →
      createNodeField (FieldInput.mk n2 (Some k) None VUndefined v3) Q t3
        s3
      = (Throw (FieldOwnedByOther (Node.id n2) (name Q) k v3), n2, s3).
Proof.
  intros HP Hint Hown Hk.
  assert (Hins : ∀ A (x : A) (m : gmap string A),
            set_member k x m = <[k := x]> m).
  { intros A x m. apply set_member_insert. right.
    by apply String.eqb_neq. }
  rewrite (createNodeField_granted
             (FieldInput.mk n (Some k) None VUndefined v1) P t1 s int)
    by done.
  cbn [FieldInput.node field_name field_value FieldInput.name
       FieldInput.fieldName FieldInput.fieldValue FieldInput.value
       truthy_str truthy andb to_key default].
  change (warnings _ s) with s. rewrite !Hins.
  set (n1 := with_maps n int _ _).
  destruct (with_maps_projections n int
              (<[k := name P]> (default ∅ (Internal.fieldOwners int)))
              (<[k := v1]> (default ∅ (Node.fields n))) Hint)
    as (Hid1 & Hown1 & Hf1 & Hfo1 & Hint1). fold n1 in Hid1, Hown1, Hf1,
    Hfo1, Hint1.
  assert (Ho1 : field_owner n1 k = Some (name P)).
  { unfold field_owner. rewrite Hfo1. simpl. apply lookup_insert_eq. }
  assert (Hv1 : field n1 k = Some v1).
  { unfold field. rewrite Hf1. simpl. apply lookup_insert_eq. }
  rewrite (createNodeField_granted
             (FieldInput.mk n1 (Some k) None VUndefined v2) P t2 s
             (Internal.set_fieldOwners
                (Some (<[k := name P]>
                         (default ∅ (Internal.fieldOwners int)))) int));
    [|done|right; by apply field_member_owner].
  cbn [FieldInput.node field_name field_value FieldInput.name
       FieldInput.fieldName FieldInput.fieldValue FieldInput.value
       truthy_str truthy andb to_key default].
  change (warnings _ s) with s. rewrite !Hins.
  set (n2 := with_maps n1 _ _ _).
  destruct (with_maps_projections n1
              (Internal.set_fieldOwners
                 (Some (<[k := name P]>
                          (default ∅ (Internal.fieldOwners int)))) int)
              (<[k := name P]>
                 (default ∅ (Internal.fieldOwners
                    (Internal.set_fieldOwners
                       (Some (<[k := name P]>
                          (default ∅ (Internal.fieldOwners int)))) int))))
              (<[k := v2]> (default ∅ (Node.fields n1)))
              Hint1)
    as (Hid2 & Hown2 & Hf2 & Hfo2 & Hint2).
  fold n2 in Hid2, Hown2, Hf2, Hfo2, Hint2.
  assert (Ho2 : field_owner n2 k = Some (name P)).
  { unfold field_owner. rewrite Hfo2. simpl. apply lookup_insert_eq. }
  repeat split; try done.
  - unfold field. rewrite Hf2. simpl. apply lookup_insert_eq.
  - intros Q v3 t3 s3 HQ.
    apply (createNodeField_denied
             (FieldInput.mk n2 (Some k) None VUndefined v3) Q t3 s3
             (name P)); done.
Qed.

End CreateNodeField.

(** ** Events and failures *)

Section EventOrFailure.
Context {E : Env}.



Lemma check_node_owner_cases (p : Plugin) (traceId : option string)
    (S : store) (n1 : Node.t) (s1 : state) :
  check_node_owner p traceId S n1 s1 = emit (Some p) traceId S n1 s1
  ∨ ∃ e, check_node_owner p traceId S n1 s1
         = (Throw e, NodeObject n1, s1).
Proof.
  unfold check_node_owner.
  destruct (getNode S (Node.id n1)) as [old|]; [|by left].
  destruct (Node.internal old) as [i|]; [|right; by eexists].
  destruct (strict_eq _ _); [by left|right; by eexists].
Qed.


End EventOrFailure.

(** ** Pages, layouts and redirects *)

Section Pages.
Context {E : Env}.

Lemma internalPage_path (page : PageInput.t) (S : store) :
  Page.path (internalPage page S)
  = if no_initial_slash (PageInput.path page)
    then "/" +:+ PageInput.path page
    else PageInput.path page.
Proof.
  unfold internalPage. cbv zeta.
  destruct (String.eqb _ _); simpl;
    by destruct (no_initial_slash (PageInput.path page)).
Qed.

(** C7.  A page that passes validation is emitted as [CREATE_PAGE] with
    a path that starts with a slash: the slash is added when the given
    path has none, so [foo] becomes [/foo]; and for the root path, which
    lodash's [kebabCase] maps to the empty string, the payload has
    [jsonName] [index.json] and [internalComponentName]
    [ComponentIndex]. *)
Theorem createPage_normalizes_path (page : PageInput.t)
    (plugin : option Plugin) (traceId : option string) (S : store)
    (s : state) :
  pageSchema (internalPage page S) = None →
  ∃ payload,
    createPage page plugin traceId S s
    = (Action (CREATE_PAGE plugin traceId payload), s)
    ∧ (no_initial_slash (PageInput.path page) = true →
       Page.path payload = "/" +:+ PageInput.path page)
    ∧ (no_initial_slash (PageInput.path page) = false →
       Page.path payload = PageInput.path page)
    ∧ (PageInput.path page = "foo" → Page.path payload = "/foo")
    ∧ (PageInput.path page = "/" → kebabCase "/" = EmptyString →
       Page.path payload = "/"
       ∧ Page.jsonName payload = "index.json"
       ∧ Page.internalComponentName payload = "ComponentIndex").
Proof.
  intros Hv. exists (internalPage page S). unfold createPage.
  cbv zeta. rewrite Hv. split; [done|].
  rewrite internalPage_path.
  split; [by intros ->|]. split; [by intros ->|].
  split; [by intros ->|]. intros Hroot Hkebab.
  split; [by rewrite Hroot|].
  unfold internalPage. cbv zeta. rewrite Hroot, Hkebab. simpl.
  done.
Qed.

(** C9.  A page, or a layout, that fails validation is reported on the
    console with the validation error and the whole record that was
    validated, in that order after the headline; the creator returns
    [null], no action; and nothing else of the module state changes. *)
Theorem invalid_page_or_layout_reported (page : PageInput.t)
    (layout : LayoutInput.t) (plugin : option Plugin)
    (traceId : option string) (S : store) (s : state) :
  (∀ err, pageSchema (internalPage page S) = Some err →
     ∃ s', createPage page plugin traceId S s = (Null, s')
           ∧ console s'
             = console s
               ++ [LogText "The upserted page didn't pass validation";
                   LogValidation err;
                   LogPage (internalPage page S)]
           ∧ typeOwners s' = typeOwners s
           ∧ tracked s' = tracked s)
  ∧ (∀ err, layoutSchema (internalLayout layout S) = Some err →
       ∃ s', createLayout layout plugin traceId S s = (Null, s')
             ∧ console s'
               = console s
                 ++ [LogText "The upserted layout didn't pass validation";
                     LogValidation err;
                     LogLayout (internalLayout layout S)]
             ∧ typeOwners s' = typeOwners s
             ∧ tracked s' = tracked s).
Proof.
  split; intros err Herr.
  - unfold createPage. cbv zeta. rewrite Herr. eexists. split; [done|].
    simpl. by rewrite <- !app_assoc.
  - unfold createLayout. cbv zeta. rewrite Herr. eexists. split; [done|].
    simpl. by rewrite <- !app_assoc.
Qed.

End Pages.

(** C8, as the code has it.  When the program's [prefixPaths] flag is set
    and a path prefix is configured, the payload of [createRedirect] has
    the prefix in front of the given [fromPath] and [toPath]; when the flag
    is not set, both paths are emitted as given. *)
Theorem createRedirect_prefixes_when_enabled (r : RedirectInput.t)
    (S : store) (prefix : string) :
  pathPrefix S = Some prefix →
  ∃ payload,
    createRedirect r S = CREATE_REDIRECT payload
    ∧ (prefixPaths S = true →
       Redirect.fromPath payload = prefix +:+ RedirectInput.fromPath r
       ∧ Redirect.toPath payload = prefix +:+ RedirectInput.toPath r)
    ∧ (prefixPaths S = false →
       Redirect.fromPath payload = RedirectInput.fromPath r
       ∧ Redirect.toPath payload = RedirectInput.toPath r).
Proof.
  intros Hp. unfold createRedirect. eexists. split; [done|]. simpl.
  split; intros ->; by rewrite ?Hp.
Qed.

(** ** More on createNode *)

Section CreateNodeMore.
Context {E : Env}.

Lemma owner_truthy_has_internal (n : Node.t) :
  truthy_str (Node.owner n) = true → ensure_internal n = n.
Proof.
  unfold ensure_internal, Node.owner.
  by destruct (Node.internal n).
Qed.

Lemma check_node_owner_arg (p : Plugin) (traceId : option string)
    (S : store) (n1 : Node.t) (s1 : state) :
  (check_node_owner p traceId S n1 s1).1.2 = NodeObject n1.
Proof.
  by destruct (check_node_owner_cases p traceId S n1 s1)
    as [->|(e & ->)].
Qed.

(** A node that arrives with an owner makes the process exit, whatever
    else it holds. *)
Lemma createNode_owner_preset (n : Node.t) (plugin : option Plugin)
    (traceId : option string) (S : store) (s : state) :
  truthy_str (Node.owner n) = true →
  createNode (NodeObject n) plugin traceId S s
  = (Exit 1, NodeObject n,
     log (LogText owner_is_automatic) (log (LogNode n) s)).
Proof.
  intros Ho. rewrite createNode_object. cbv zeta.
  rewrite (owner_truthy_has_internal n Ho). by rewrite Ho.
Qed.

(** The caller's node after a call that got past the owner test. *)
Lemma createNode_arg_after (n : Node.t) (plugin : option Plugin)
    (traceId : option string) (S : store) (s : state) :
  truthy_str (Node.owner n) = false →
  (createNode (NodeObject n) plugin traceId S s).1.2
  = NodeObject (prepared plugin n).
Proof.
  intros Ho. rewrite createNode_object. cbv zeta.
  destruct (ensure_internal_same n) as (_ & -> & _). rewrite Ho.
  destruct (nodeSchema _); [done|]. case_bool_decide; [done|].
  destruct plugin as [p|]; [|done].
  set (o := get_member (typeOwners s) _).
  destruct (truthy_member o); [destruct (member_eq o _)|];
    try apply check_node_owner_arg. done.
Qed.

(** X1.  A node object can be handed to [createNode] on behalf of a
    plugin only once: whatever the first call answers (an action, a
    validation error, a throw), it has written the plugin's name into
    [internal.owner], and any later [createNode] on the same object, by
    any plugin or none and against any store, logs the node and the
    owner message and exits with code 1, leaving the node and the type
    table as they are. *)
Theorem createNode_same_object_twice_exits (n : Node.t) (p : Plugin)
    (traceId : option string) (S : store) (s : state)
    (plugin' : option Plugin) (traceId' : option string) (S' : store) :
  truthy_str (Node.owner n) = false →
  name p ≠ EmptyString →
  let '(_, arg', s1) := createNode (NodeObject n) (Some p) traceId S s in
  arg' = NodeObject (prepared (Some p) n)
  ∧ createNode arg' plugin' traceId' S' s1
    = (Exit 1, arg',
       log (LogText owner_is_automatic)
         (log (LogNode (prepared (Some p) n)) s1)).
Proof.
  intros Ho Hp.
  pose proof (createNode_arg_after n (Some p) traceId S s Ho) as Harg.
  destruct (createNode _ _ _ _ _) as [[c arg'] s1]. simpl in Harg.
  subst arg'. split; [done|].
  apply createNode_owner_preset.
  destruct (prepared_Some p n) as (_ & ->). by apply truthy_str_Some.
Qed.

(** [createNode] on a node that carries [fields]. *)
Lemma createNode_with_fields (n : Node.t) (plugin : option Plugin)
    (traceId : option string) (S : store) (s : state) :
  is_Some (Node.fields n) →
  let '(c, arg', s') := createNode (NodeObject n) plugin traceId S s in
  (c = Exit 1 ∨ c = Return (Action VALIDATION_ERROR)
   ∨ c = Throw (ReservedFields (prepared plugin n) plugin))
  ∧ typeOwners s' = typeOwners s
  ∧ tracked s' = tracked s.
Proof.
  intros Hf. rewrite createNode_object. cbv zeta.
  destruct (truthy_str _); [by auto|].
  destruct (nodeSchema _); [by auto|].
  rewrite prepared_fields, bool_decide_eq_true_2 by done. by auto.
Qed.

(** X2.  [createNode] never accepts a node that carries the reserved
    [fields] key: the call exits (owner preset), returns the validation
    error, or throws the reserved-fields error; it returns no create or
    touch action, claims no type and tracks nothing. *)
Theorem createNode_never_accepts_fields (n : Node.t)
    (plugin : option Plugin) (traceId : option string) (S : store)
    (s : state) :
  is_Some (Node.fields n) →
  let '(c, arg', s') := createNode (NodeObject n) plugin traceId S s in
  (c = Exit 1 ∨ c = Return (Action VALIDATION_ERROR)
   ∨ c = Throw (ReservedFields (prepared plugin n) plugin))
  ∧ (∀ pl tr payload, c ≠ Return (Action (CREATE_NODE pl tr payload)))
  ∧ (∀ pl tr nodeId, c ≠ Return (Action (TOUCH_NODE pl tr nodeId)))
  ∧ typeOwners s' = typeOwners s
  ∧ tracked s' = tracked s.
Proof.
  intros Hf.
  pose proof (createNode_with_fields n plugin traceId S s Hf) as Hc.
  destruct (createNode _ _ _ _ _) as [[c arg'] s'].
  destruct Hc as (Hc & Ht & Htr). repeat split; try done.
  - destruct Hc as [-> | [-> | ->]]; discriminate.
  - destruct Hc as [-> | [-> | ->]]; discriminate.
Qed.

(** X3.  A node that [createNodeField] has extended cannot be created
    again: once the field action has been returned, [createNode] on the
    resulting node object, by any plugin or none, returns no create or
    touch action and leaves the type table as it is. *)
Theorem createNode_after_createNodeField_rejected (i : FieldInput.t)
    (P : Plugin) (t : option string) (s : state)
    (plugin : option Plugin) (traceId : option string) (S : store) :
  (∃ a, (createNodeField i P t s).1.1 = Return (Action a)) →
  let '(_, n', s1) := createNodeField i P t s in
  let '(c, _, s2) := createNode (NodeObject n') plugin traceId S s1 in
  (c = Exit 1 ∨ c = Return (Action VALIDATION_ERROR)
   ∨ c = Throw (ReservedFields (prepared plugin n') plugin))
  ∧ typeOwners s2 = typeOwners s1.
Proof.
  intros (a & Ha).
  assert (Hf : is_Some (Node.fields (createNodeField i P t s).1.2)).
  { revert Ha. rewrite createNodeField_cases. cbv zeta.
    destruct (Node.internal (FieldInput.node i)) as [int|]; [|done].
    destruct (_ && _); [done|]. intros _. by eexists. }
  destruct (createNodeField i P t s) as [[c1 n'] s1]. simpl in Hf.
  pose proof (createNode_with_fields n' plugin traceId S s1 Hf) as Hc.
  destruct (createNode _ _ _ _ _) as [[c arg'] s2].
  by destruct Hc as (Hc & Ht & _).
Qed.

(** X4.  [createNode] writes the type table in one way only: it records
    the calling plugin for the type of a node that has got as far as the
    ownership checks while that type had no owner.  Every other call,
    and every other entry of the table, is left as it was. *)
Theorem createNode_type_table_frame (arg : node_arg)
    (plugin : option Plugin) (traceId : option string) (S : store)
    (s : state) :
  let '(_, _, s') := createNode arg plugin traceId S s in
  typeOwners s' = typeOwners s
  ∨ ∃ p n, plugin = Some p ∧ arg = NodeObject n
           ∧ reaches_checks plugin n
           ∧ truthy_str (typeOwners s !! to_key (Node.type n)) = false
           ∧ typeOwners s'
             = <[to_key (Node.type n) := name p]> (typeOwners s).
Proof.
  destruct arg as [n|v]; [|by left].
  rewrite createNode_object. cbv zeta.
  pose proof (ensure_internal_same n) as (_ & Hown & _).
  destruct (truthy_str (Node.owner (ensure_internal n))) eqn:Ho;
    [by left|].
  destruct (nodeSchema (prepared plugin n)) eqn:Hv; [by left|].
  case_bool_decide as Hf; [by left|].
  destruct plugin as [p|]; [|by left].
  rewrite prepared_type.
  destruct (truthy_member
              (get_member (typeOwners s) (to_key (Node.type n)))) eqn:Hc.
  - destruct (member_eq _ _); [|by left].
    pose proof (check_node_owner_state p traceId S (prepared (Some p) n)
                  (track (Node.id (prepared (Some p) n)) s)) as Hst.
    destruct (check_node_owner _ _ _ _ _) as [[c arg'] s'].
    simpl in Hst. subst s'. by left.
  - rewrite (set_member_falsy _ _ (name p) Hc).
    pose proof (check_node_owner_state p traceId S (prepared (Some p) n)
                  (set_typeOwners
                     (<[to_key (Node.type n) := name p]> (typeOwners s))
                     (track (Node.id (prepared (Some p) n)) s))) as Hst.
    destruct (check_node_owner _ _ _ _ _) as [[c arg'] s'].
    simpl in Hst. subst s'. right. exists p, n.
    repeat split; try done.
    + congruence.
    + rewrite prepared_fields in Hf. destruct (Node.fields n); [|done].
      destruct Hf. by eexists.
    + by apply truthy_member_false.
Qed.



(** X6.  The type is claimed before the node's owner is checked: when a
    plugin submits a node of a type for which [typeOwners[type]] is
    falsy (an unclaimed type whose name [Object.prototype] does not
    know) and whose derived id is stored with another owner, the call
    throws the node-owner error, and the plugin has nevertheless been
    recorded as the owner of the type. *)
Theorem createNode_claims_type_before_owner_check (n : Node.t)
    (p : Plugin) (traceId : option string) (S : store) (s : state)
    (old : Node.t) (i : Internal.t) :
  reaches_checks (Some p) n →
  truthy_member (get_member (typeOwners s) (to_key (Node.type n))) = false →
  nodes S !! createUuid (Node.id n) (name p) = Some old →
  Node.internal old = Some i →
  Internal.owner i ≠ Some (name p) →
  let n1 := prepared (Some p) n in
  createNode (NodeObject n) (Some p) traceId S s
  = (Throw (NodeOwnedByOther (Node.id n1) (Internal.owner i) (name p)),
     NodeObject n1,
     set_typeOwners (<[to_key (Node.type n) := name p]> (typeOwners s))
       (track (Node.id n1) s)).
Proof.
  intros Hr Hfree Hold Hint Hown n1.
  rewrite createNode_reaching by done. cbv zeta. fold n1.
  subst n1. rewrite prepared_type, Hfree.
  rewrite (set_member_falsy _ _ (name p) Hfree).
  unfold check_node_owner, getNode.
  destruct (prepared_Some p n) as (Hid & _). rewrite Hid, Hold, Hint.
  by rewrite (proj2 (strict_eq_false _ _) Hown).
Qed.

(** X7.  Create, store, submit again: when a call on behalf of a
    plugin has passed every check, and the node it emitted is what the
    store then holds under the emitted id, submitting the same input
    again for the same plugin is answered with [TOUCH_NODE] on that id,
    and the type table stays as the first call left it. *)
Theorem createNode_resubmission_is_touch (n : Node.t) (p : Plugin)
    (traceId traceId' : option string) (S S' : store) (s : state) :
  reaches_checks (Some p) n →
  passes_ownership (Some p) n S s →
  let n1 := prepared (Some p) n in
  nodes S' !! Node.id n1 = Some n1 →
  let '(c1, _, s1) := createNode (NodeObject n) (Some p) traceId S s in
  let '(c2, arg2, s2) :=
    createNode (NodeObject n) (Some p) traceId' S' s1 in
  c1 = Return (Action (detect (Some p) traceId S n1))
  ∧ c2 = Return (Action (TOUCH_NODE (Some p) traceId' (Node.id n1)))
  ∧ arg2 = NodeObject n1
  ∧ typeOwners s2 = typeOwners s1.
Proof.
  intros Hr Hp n1 Hstored.
  assert (Htouch : detect (Some p) traceId' S' n1
                   = TOUCH_NODE (Some p) traceId' (Node.id n1)).
  { rewrite detect_cases. unfold getNode. rewrite Hstored.
    by rewrite decide_True. }
  rewrite createNode_reaching by done; cbv zeta; fold n1.
  { destruct Hp as (Ht & Hold). cbv zeta in Ht. fold n1 in Ht, Hold.
    rewrite !(check_node_owner_passes p traceId S n1) by done.
    assert (Hown' : ∀ old, getNode S' (Node.id n1) = Some old →
                           Node.owner old = Some (name p)).
    { intros old. unfold getNode. rewrite Hstored. intros [= <-].
      apply prepared_Some. }
    set (t := to_key (Node.type n1)) in *.
    assert (Hsecond : ∀ s1, typeOwners s1 !! t = Some (name p) →
      let '(c2, arg2, s2) :=
        createNode (NodeObject n) (Some p) traceId' S' s1 in
      c2 = Return (Action (TOUCH_NODE (Some p) traceId' (Node.id n1)))
      ∧ arg2 = NodeObject n1 ∧ typeOwners s2 = typeOwners s1).
    { intros s1 Hs1. rewrite createNode_reaching by done. cbv zeta.
      fold n1 t. rewrite (proj2 (get_member_Own _ _ _) Hs1).
      rewrite (proj2 (member_eq_true _ _) eq_refl).
      rewrite !(check_node_owner_passes p traceId' S' n1) by done.
      unfold emit. rewrite Htouch.
      destruct (truthy_member (Own (name p))); [done|].
      repeat split. simpl.
      rewrite set_member_insert by (left; by eexists).
      by apply insert_id. }
    destruct (truthy_member (get_member (typeOwners s) t)) eqn:Hc.
    + destruct Ht as [Ht|Ht]; [done|].
      rewrite (proj2 (member_eq_true _ _) Ht).
      unfold emit.
      specialize (Hsecond (track (Node.id n1) s)
                    (proj1 (get_member_Own _ _ _) Ht)).
      destruct (createNode _ _ _ _ _) as [[c2 arg2] s2].
      by destruct Hsecond as (-> & -> & ->).
    + unfold emit. rewrite (set_member_falsy _ _ (name p) Hc).
      specialize (Hsecond
        (set_typeOwners (<[t := name p]> (typeOwners s))
           (track (Node.id n1) s)) (lookup_insert_eq _ _ _)).
      destruct (createNode _ _ _ _ _) as [[c2 arg2] s2].
      by destruct Hsecond as (-> & -> & ->). }
Qed.

End CreateNodeMore.

(** ** More on createNodeField *)

Section CreateNodeFieldMore.
Context {E : Env}.

(** X8.  The deprecated keys are aliases: a call that names the field
    with [fieldName] and gives its value with [fieldValue] (a non-empty
    name, a truthy value, no [name] and no [value]) completes as the call
    with [name] and [value] does and leaves the same node; the only
    difference is the two deprecation notices on the console. *)
Theorem createNodeField_deprecated_aliases (n : Node.t) (fn : string)
    (fv : value) (P : Plugin) (t : option string) (s : state) :
  fn ≠ EmptyString →
  truthy fv = true →
  let deprecated := FieldInput.mk n None (Some fn) fv VUndefined in
  let current := FieldInput.mk n (Some fn) None VUndefined fv in
  let '(c, n', s') := createNodeField current P t s in
  s' = s
  ∧ createNodeField deprecated P t s
    = (c, n',
       log (Warn fieldValue_deprecated) (log (Warn fieldName_deprecated) s)).
Proof.
  intros Hfn Hfv deprecated current.
  pose proof (truthy_str_Some fn Hfn) as Ht. simpl in Ht.
  assert (Hname : field_name deprecated = field_name current).
  { unfold field_name. simpl. by rewrite Ht. }
  assert (Hvalue : field_value deprecated = field_value current).
  { unfold field_value. simpl. by rewrite Hfv. }
  assert (Hw : warnings deprecated s
               = log (Warn fieldValue_deprecated)
                   (log (Warn fieldName_deprecated) s)).
  { unfold warnings. simpl. by rewrite Ht, Hfv. }
  rewrite !createNodeField_cases. cbv zeta.
  rewrite Hname, Hvalue, Hw.
  change (FieldInput.node deprecated) with n.
  change (FieldInput.node current) with n.
  change (warnings current s) with s.
  destruct (Node.internal n); [|done]. by destruct (_ && _).
Qed.

(** X9.  Adding a field touches that field only: a [createNodeField]
    that passes the owner check ([fieldOwners[name]] is falsy or is the
    plugin's name) returns its action, and every field of another name
    has the value and the owner it had, and the id, parent, children,
    data, owner, type and digest of the node are what they were. *)
Theorem createNodeField_other_fields_kept (i : FieldInput.t) (P : Plugin)
    (t : option string) (s : state) (int : Internal.t) :
  let n := FieldInput.node i in
  let k := to_key (field_name i) in
  Node.internal n = Some int →
  may_write P n k →
  let '(c, n', _) := createNodeField i P t s in
  c = Return (Action (ADD_FIELD_TO_NODE (Some P) t n'))
  ∧ (∀ k', k' ≠ k →
           field n' k' = field n k'
           ∧ field_owner n' k' = field_owner n k')
  ∧ Node.id n' = Node.id n
  ∧ Node.parent n' = Node.parent n
  ∧ Node.children n' = Node.children n
  ∧ Node.data n' = Node.data n
  ∧ Node.owner n' = Node.owner n
  ∧ Node.type n' = Node.type n
  ∧ Node.contentDigest n' = Node.contentDigest n.
Proof.
  intros n k Hint Hown.
  rewrite (createNodeField_granted i P t s int) by done. fold n k.
  unfold field, field_owner, with_maps, Node.fieldOwners, Node.owner,
    Node.type, Node.contentDigest.
  rewrite Hint. simpl. repeat split; try done.
  - rewrite lookup_set_member_ne by done. by destruct (Node.fields n).
  - rewrite lookup_set_member_ne by done.
    by destruct (Internal.fieldOwners int).
Qed.

(** X10.  Ownership is per field name: on a node where neither of two
    fields has been claimed ([fieldOwners[name]] is undefined for both),
    one plugin can add one field and another plugin the other; both
    calls return their action, and the node ends up holding both values,
    each field owned by the plugin that added it. *)
Theorem createNodeField_owners_per_field (P Q : Plugin) (n : Node.t)
    (ka kb : string) (va vb : value) (t1 t2 : option string) (s : state)
    (int : Internal.t) :
  Node.internal n = Some int →
  ka ≠ kb →
  field_member n ka = Missing →
  field_member n kb = Missing →
  let '(c1, n1, s1) :=
    createNodeField (FieldInput.mk n (Some ka) None VUndefined va) P t1 s in
  let '(c2, n2, _) :=
    createNodeField (FieldInput.mk n1 (Some kb) None VUndefined vb) Q t2
      s1 in
  c1 = Return (Action (ADD_FIELD_TO_NODE (Some P) t1 n1))
  ∧ c2 = Return (Action (ADD_FIELD_TO_NODE (Some Q) t2 n2))
  ∧ field n2 ka = Some va
  ∧ field n2 kb = Some vb
  ∧ field_owner n2 ka = Some (name P)
  ∧ field_owner n2 kb = Some (name Q).
Proof.
  intros Hint Hne Ha Hb.
  assert (Hia : inherited ka = false).
  { by destruct (proj1 (get_member_Missing _ _) Ha). }
  assert (Hib : inherited kb = false).
  { by destruct (proj1 (get_member_Missing _ _) Hb). }
  rewrite (createNodeField_granted
             (FieldInput.mk n (Some ka) None VUndefined va) P t1 s int);
    [|done|left; cbn; by rewrite Ha].
  cbn [FieldInput.node field_name field_value FieldInput.name
       FieldInput.fieldName FieldInput.fieldValue FieldInput.value
       truthy_str truthy andb to_key default from_option id].
  change (warnings _ s) with s.
  rewrite !(set_member_ordinary ka) by done.
  set (n1 := with_maps n int _ _).
  destruct (with_maps_projections n int
              (<[ka := name P]> (default ∅ (Internal.fieldOwners int)))
              (<[ka := va]> (default ∅ (Node.fields n))) Hint)
    as (_ & _ & Hf1 & Hfo1 & Hint1).
  fold n1 in Hf1, Hfo1, Hint1.
  assert (Hb1 : field_member n1 kb = Missing).
  { rewrite (field_member_internal n int kb Hint) in Hb.
    unfold field_member. rewrite Hfo1. simpl.
    apply get_member_Missing. apply get_member_Missing in Hb as [Hb _].
    by rewrite lookup_insert_ne. }
  rewrite (createNodeField_granted
             (FieldInput.mk n1 (Some kb) None VUndefined vb) Q t2 s
             (Internal.set_fieldOwners
                (Some (<[ka := name P]>
                         (default ∅ (Internal.fieldOwners int)))) int));
    [|done|left; cbn; by rewrite Hb1].
  cbn [FieldInput.node field_name field_value FieldInput.name
       FieldInput.fieldName FieldInput.fieldValue FieldInput.value
       truthy_str truthy andb to_key default from_option id].
  rewrite !(set_member_ordinary kb) by done.
  unfold field, field_owner, with_maps, Node.fieldOwners. simpl.
  repeat split; try done.
  - rewrite lookup_insert_ne by done. apply lookup_insert_eq.
  - apply lookup_insert_eq.
  - rewrite lookup_insert_ne by done. apply lookup_insert_eq.
  - apply lookup_insert_eq.
Qed.

(** X11.  [createNodeField] needs a node with an [internal] object: on a
    node without one it throws a type error when it reads
    [node.internal.fieldOwners], after the deprecation notices and before
    any write, so the node is left exactly as it was. *)
Theorem createNodeField_needs_internal (i : FieldInput.t) (P : Plugin)
    (t : option string) (s : state) :
  Node.internal (FieldInput.node i) = None →
  createNodeField i P t s
  = (Throw (TypeError cannot_read_fieldOwners), FieldInput.node i,
     warnings i s).
Proof.
  intros Hint. rewrite createNodeField_cases. cbv zeta. by rewrite Hint.
Qed.

End CreateNodeFieldMore.

(** ** More on createParentChildLink *)

Lemma length_baseUniq (array result : list string) :
  (length (baseUniq result array) ≤ length result + length array)%nat.
Proof.
  revert result; induction array as [|x rest IH]; intros result; simpl.
  - lia.
  - case_bool_decide.
    + specialize (IH result). lia.
    + specialize (IH (result ++ [x])). rewrite length_app in IH.
      simpl in IH. lia.
Qed.

(** X12.  After [createParentChildLink] the children of the parent have
    no duplicates (also those the parent came with are gone), hold
    exactly the old children and the child's id, and are at most one
    longer than before; nothing else of the parent changes. *)
Theorem createParentChildLink_children_set (parent child : Node.t) :
  let parent' := linked parent child in
  NoDup (Node.children parent')
  ∧ (∀ x, x ∈ Node.children parent'
          ↔ x ∈ Node.children parent ∨ x = Node.id child)
  ∧ (length (Node.children parent')
     ≤ Datatypes.S (length (Node.children parent)))%nat
  ∧ Node.id parent' = Node.id parent
  ∧ Node.parent parent' = Node.parent parent
  ∧ Node.internal parent' = Node.internal parent
  ∧ Node.fields parent' = Node.fields parent
  ∧ Node.data parent' = Node.data parent.
Proof.
  intros parent'. subst parent'. rewrite linked_eq. simpl.
  repeat split; try done.
  - apply NoDup_baseUniq, NoDup_nil_2.
  - unfold uniq. rewrite elem_of_baseUniq, elem_of_nil, elem_of_app,
      list_elem_of_singleton. tauto.
  - unfold uniq. rewrite elem_of_baseUniq, elem_of_nil, elem_of_app,
      list_elem_of_singleton. tauto.
  - pose proof (length_baseUniq (Node.children parent ++ [Node.id child])
                  []) as Hlen.
    rewrite length_app in Hlen. simpl in Hlen. unfold uniq. lia.
Qed.

(** X13.  On a parent whose children are already free of duplicates the
    link is an append: a child that is not yet among them is added at the
    end, and a child that is leaves the list as it is. *)
Theorem createParentChildLink_appends_new_child (parent child : Node.t) :
  NoDup (Node.children parent) →
  Node.children (linked parent child)
  = if bool_decide (Node.id child ∈ Node.children parent)
    then Node.children parent
    else Node.children parent ++ [Node.id child].
Proof.
  intros Hnd. rewrite linked_eq. simpl.
  case_bool_decide as Hin.
  - by apply uniq_snoc_present.
  - unfold uniq. apply (baseUniq_NoDup_id _ []). simpl.
    apply NoDup_app. repeat split; [done| |apply NoDup_singleton].
    intros x Hx ->%list_elem_of_singleton. done.
Qed.

(** ** More on pages, layouts and redirects *)

Lemma length_string_app (a b : string) :
  String.length (a +:+ b) = (String.length a + String.length b)%nat.
Proof. induction a as [|c a IH]; simpl; [done|]. by rewrite IH. Qed.

Lemma app_suffix_only (a b : string) : a +:+ b = b → a = EmptyString.
Proof.
  intros Heq. apply (f_equal String.length) in Heq.
  rewrite length_string_app in Heq. destruct a; [done|]. simpl in Heq. lia.
Qed.

Section PagesMore.
Context {E : Env}.

(** X14.  The names of a page come from the path as it was given, before
    the slash is added.  Every path that [kebabCase] maps to the empty
    string, not the root path alone, is named [index.json] and
    [ComponentIndex]; every other path is named by its kebab case and its
    pascal case. *)
Theorem createPage_names_from_given_path (page : PageInput.t)
    (plugin : option Plugin) (traceId : option string) (S : store)
    (s : state) :
  pageSchema (internalPage page S) = None →
  ∃ payload,
    createPage page plugin traceId S s
    = (Action (CREATE_PAGE plugin traceId payload), s)
    ∧ (kebabCase (PageInput.path page) = EmptyString →
       Page.jsonName payload = "index.json"
       ∧ Page.internalComponentName payload = "ComponentIndex")
    ∧ (kebabCase (PageInput.path page) ≠ EmptyString →
       Page.jsonName payload = kebabCase (PageInput.path page) +:+ ".json"
       ∧ Page.internalComponentName payload
         = "Component" +:+ pascalCase (PageInput.path page)).
Proof.
  intros Hv. exists (internalPage page S). unfold createPage. cbv zeta.
  rewrite Hv. split; [done|]. unfold internalPage. cbv zeta.
  split.
  - intros ->. simpl.
    by destruct (no_initial_slash (PageInput.path page)).
  - intros Hne.
    destruct (String.eqb (kebabCase (PageInput.path page) +:+ ".json")
                ".json") eqn:Heq.
    + apply String.eqb_eq, app_suffix_only in Heq. done.
    + simpl. by destruct (no_initial_slash (PageInput.path page)).
Qed.

Lemma internalPage_layout (page : PageInput.t) (S : store) :
  Page.layout (internalPage page S)
  = (if truthy_str (PageInput.layout page) then PageInput.layout page
     else match glob_sync
                  (joinPath [directory S; "src/layouts/index.*"]) with
          | [] => None
          | _ :: _ => Some "index"
          end).
Proof.
  unfold internalPage. cbv zeta.
  destruct (String.eqb _ _); simpl;
    destruct (no_initial_slash (PageInput.path page)); simpl;
    (destruct (truthy_str (PageInput.layout page)) eqn:Hl; simpl;
     [by rewrite Hl|by destruct (glob_sync _)]).
Qed.

Lemma internalPage_context (page : PageInput.t) (S : store) :
  Page.context (internalPage page S)
  = context_or_empty (PageInput.context page).
Proof.
  unfold internalPage. cbv zeta.
  destruct (String.eqb _ _); simpl;
    by destruct (no_initial_slash (PageInput.path page)).
Qed.

(** X15.  The defaults of a page.  A layout that is given (and not the
    empty string) is kept and never replaced by the fallback; without
    one, the layout is [index] when [src/layouts/index.*] matches a file
    of the site and [null] otherwise.  The context of the payload is
    never falsy: a truthy context is kept, a missing or falsy one becomes
    the empty object. *)
Theorem createPage_defaults (page : PageInput.t)
    (plugin : option Plugin) (traceId : option string) (S : store)
    (s : state) :
  pageSchema (internalPage page S) = None →
  ∃ payload,
    createPage page plugin traceId S s
    = (Action (CREATE_PAGE plugin traceId payload), s)
    ∧ Page.layout payload
      = (if truthy_str (PageInput.layout page) then PageInput.layout page
         else match glob_sync
                      (joinPath [directory S; "src/layouts/index.*"]) with
              | [] => None
              | _ :: _ => Some "index"
              end)
    ∧ truthy (Page.context payload) = true
    ∧ Page.context payload
      = match PageInput.context page with
        | Some c => if truthy c then c else VObject []
        | None => VObject []
        end.
Proof.
  intros Hv. exists (internalPage page S). unfold createPage. cbv zeta.
  rewrite Hv. split; [done|]. split; [apply internalPage_layout|].
  rewrite internalPage_context. unfold context_or_empty.
  split; [|done].
  destruct (PageInput.context page) as [c|]; [|done].
  by destruct (truthy c) eqn:Hc.
Qed.

(** X16.  The path of an emitted page always begins with a slash (the
    empty path becomes the root path), and adding the slash is idempotent:
    a page submitted with the emitted path is emitted with that very
    path. *)
Theorem createPage_path_begins_with_slash (page : PageInput.t)
    (plugin : option Plugin) (traceId : option string) (S : store)
    (s : state) :
  pageSchema (internalPage page S) = None →
  ∃ payload,
    createPage page plugin traceId S s
    = (Action (CREATE_PAGE plugin traceId payload), s)
    ∧ no_initial_slash (Page.path payload) = false
    ∧ (PageInput.path page = EmptyString → Page.path payload = "/")
    ∧ Page.path
        (internalPage
           (PageInput.mk (Page.path payload) (PageInput.component page)
              (PageInput.layout page) (PageInput.context page)
              (PageInput.matchPath page)) S)
      = Page.path payload.
Proof.
  intros Hv. exists (internalPage page S). unfold createPage. cbv zeta.
  rewrite Hv. split; [done|].
  assert (Hslash : no_initial_slash (Page.path (internalPage page S))
                   = false).
  { rewrite internalPage_path.
    by destruct (no_initial_slash (PageInput.path page)) eqn:Hn. }
  split; [done|]. split.
  - rewrite internalPage_path. by intros ->.
  - rewrite (internalPage_path (PageInput.mk _ _ _ _ _)). simpl.
    by rewrite Hslash.
Qed.

(** X17.  A layout that passes validation is emitted once, with the
    state untouched, and everything derived from one id: the given id,
    or, when none or the empty string is given, the file name of the
    component; the machine id is [layout---] before that id, the wrapper
    is [<id>.js] under [.cache/layouts] of the site, the json name is
    built from the kebab case of the id, and [isLayout] is set. *)
Theorem createLayout_derives_from_id (layout : LayoutInput.t)
    (plugin : option Plugin) (traceId : option string) (S : store)
    (s : state) :
  layoutSchema (internalLayout layout S) = None →
  ∃ payload,
    createLayout layout plugin traceId S s
    = (Action (CREATE_LAYOUT plugin traceId payload), s)
    ∧ Layout.id payload
      = match LayoutInput.id layout with
        | Some given =>
            if String.eqb given EmptyString
            then parse_name (LayoutInput.component layout)
            else given
        | None => parse_name (LayoutInput.component layout)
        end
    ∧ Layout.machineId payload = "layout---" +:+ Layout.id payload
    ∧ Layout.componentWrapperPath payload
      = joinPath [directory S; ".cache"; "layouts";
                  Layout.id payload +:+ ".js"]
    ∧ Layout.jsonName payload
      = "layout-" +:+ kebabCase (Layout.id payload) +:+ ".json"
    ∧ Layout.internalComponentName payload
      = "Component-layout-" +:+ pascalCase (Layout.id payload)
    ∧ Layout.isLayout payload = true
    ∧ Layout.component payload = LayoutInput.component layout.
Proof.
  intros Hv. exists (internalLayout layout S). unfold createLayout.
  cbv zeta. rewrite Hv. split; [done|].
  unfold internalLayout. cbv zeta. simpl. repeat split.
  destruct (LayoutInput.id layout) as [given|]; [|done]. simpl.
  by destruct (String.eqb given EmptyString).
Qed.
End PagesMore.

(** X18.  With the [prefixPaths] flag set and no path prefix configured,
    the template literals of [createRedirect] render the missing prefix
    as the text [undefined] in front of both paths; the other keys are
    then as in every call: [isPermanent] and [redirectInBrowser] default
    to [false] when absent, and the remaining keys are passed on. *)
Theorem createRedirect_missing_prefix (r : RedirectInput.t) (S : store) :
  prefixPaths S = true →
  pathPrefix S = None →
  createRedirect r S
  = CREATE_REDIRECT
      (Redirect.mk ("undefined" +:+ RedirectInput.fromPath r)
         (default false (RedirectInput.isPermanent r))
         (default false (RedirectInput.redirectInBrowser r))
         ("undefined" +:+ RedirectInput.toPath r)
         (RedirectInput.rest r)).
Proof. intros Hflag Hnone. unfold createRedirect. by rewrite Hflag, Hnone. Qed.

(** ** How the calls compose *)

Section Composition.
Context {E : Env}.

Lemma field_owner_with_maps (n : Node.t) (int : Internal.t)
    (owners : gmap string string) (flds : gmap string value) (k : string) :
  Node.internal n = Some int →
  field_owner (with_maps n int owners flds) k = owners !! k.
Proof.
  intros Hint.
  destruct (with_maps_projections n int owners flds Hint)
    as (_ & _ & _ & Hfo & _).
  unfold field_owner. by rewrite Hfo.
Qed.

Lemma with_maps_twice (n : Node.t) (int : Internal.t)
    (owners owners' : gmap string string) (flds flds' : gmap string value) :
  with_maps (with_maps n int owners flds)
    (Internal.set_fieldOwners (Some owners) int) owners' flds'
  = with_maps n int owners' flds'.
Proof. reflexivity. Qed.

(** The node that [createNodeField] leaves, on a node with an
    [internal] object. *)
Lemma createNodeField_node (i : FieldInput.t) (P : Plugin)
    (t : option string) (s : state) (int : Internal.t) :
  let n := FieldInput.node i in
  Node.internal n = Some int →
  (createNodeField i P t s).1.2
  = let m := claim_field P (to_key (field_name i)) (field_value i)
               (default ∅ (Internal.fieldOwners int),
                default ∅ (Node.fields n)) in
    with_maps n int m.1 m.2.
Proof.
  intros n Hint. rewrite createNodeField_cases. cbv zeta. fold n.
  rewrite Hint. unfold claim_field. cbn [fst snd].
  by destruct (_ && _).
Qed.

(** The same, on a node that an earlier call has left. *)
Lemma createNodeField_node_again (n : Node.t) (int : Internal.t)
    (owners : gmap string string) (flds : gmap string value)
    (i : FieldInput.t) (P : Plugin) (t : option string) (s : state) :
  Node.internal n = Some int →
  (createNodeField (FieldInput.set_node (with_maps n int owners flds) i)
     P t s).1.2
  = let m := claim_field P (to_key (field_name i)) (field_value i)
               (owners, flds) in
    with_maps n int m.1 m.2.
Proof.
  intros Hint.
  destruct (with_maps_projections n int owners flds Hint)
    as (_ & _ & Hf & _ & Hint').
  rewrite (createNodeField_node
             (FieldInput.set_node (with_maps n int owners flds) i) P t s
             (Internal.set_fieldOwners (Some owners) int) Hint').
  cbv zeta.
  change (FieldInput.node (FieldInput.set_node ?m i)) with m.
  change (field_name (FieldInput.set_node ?m i)) with (field_name i).
  change (field_value (FieldInput.set_node ?m i)) with (field_value i).
  rewrite Hf. cbn [Internal.fieldOwners Internal.set_fieldOwners default].
  apply with_maps_twice.
Qed.

(** Claims of fields of different names commute. *)
Lemma claim_field_comm (P Q : Plugin) (ka kb : string) (va vb : value)
    (m : gmap string string * gmap string value) :
  ka ≠ kb →
  claim_field Q kb vb (claim_field P ka va m)
  = claim_field P ka va (claim_field Q kb vb m).
Proof.
  intros Hne. destruct m as [owners flds].
  unfold claim_field at 2 4. cbn [fst snd].
  destruct (truthy_member (get_member owners ka) && _) eqn:Ha;
    destruct (truthy_member (get_member owners kb) && _) eqn:Hb;
    unfold claim_field; cbn [fst snd];
    rewrite ?(get_member_set_ne ka kb), ?(get_member_set_ne kb ka)
      by done;
    rewrite ?Ha, ?Hb; try reflexivity.
  f_equal; by apply set_member_comm.
Qed.

(** The write that follows a check which let the plugin through. *)
Lemma set_member_granted (owners : gmap string string) (k p v : string) :
  truthy_member (get_member owners k) = false
  ∨ get_member owners k = Own p →
  set_member k v owners = <[k := v]> owners.
Proof.
  intros [H|H]; [by apply set_member_falsy|].
  apply set_member_insert. left. apply get_member_Own in H. by eexists.
Qed.

(** X19.  [createNodeField] is idempotent for its owner: the same field
    with the same value, added a second time by the same plugin to the
    node the first call left, returns its action again and leaves that
    node exactly as it is.  The first call is one that passes the owner
    check: [fieldOwners[name]] is falsy or is the plugin's name. *)
Theorem createNodeField_idempotent (i : FieldInput.t) (P : Plugin)
    (t1 t2 : option string) (s : state) (int : Internal.t) :
  let n := FieldInput.node i in
  let k := to_key (field_name i) in
  Node.internal n = Some int →
  may_write P n k →
  let '(c1, n1, s1) := createNodeField i P t1 s in
  c1 = Return (Action (ADD_FIELD_TO_NODE (Some P) t1 n1))
  ∧ createNodeField (FieldInput.set_node n1 i) P t2 s1
    = (Return (Action (ADD_FIELD_TO_NODE (Some P) t2 n1)), n1,
       warnings i s1).
Proof.
  intros n k Hint Hown.
  rewrite (createNodeField_granted i P t1 s int) by done. fold n k.
  split; [done|].
  set (owners := set_member k (name P)
                   (default ∅ (Internal.fieldOwners int))).
  set (flds := set_member k (field_value i) (default ∅ (Node.fields n))).
  destruct (with_maps_projections n int owners flds Hint)
    as (_ & _ & Hf1 & Hfo1 & Hint1).
  assert (Hins : owners = <[k := name P]>
                            (default ∅ (Internal.fieldOwners int))).
  { subst owners. apply (set_member_granted _ _ (name P)).
    unfold may_write in Hown.
    by rewrite (field_member_internal n int k Hint) in Hown. }
  rewrite (createNodeField_granted
             (FieldInput.set_node (with_maps n int owners flds) i) P t2 _
             (Internal.set_fieldOwners (Some owners) int)).
  - change (FieldInput.node (FieldInput.set_node ?m i)) with m.
    change (field_name (FieldInput.set_node ?m i)) with (field_name i).
    change (field_value (FieldInput.set_node ?m i)) with (field_value i).
    change (warnings (FieldInput.set_node ?m i) ?x) with (warnings i x).
    fold k. rewrite Hf1.
    cbn [Internal.fieldOwners Internal.set_fieldOwners default
         from_option id].
    rewrite with_maps_twice.
    subst owners flds. by rewrite !set_member_idemp.
  - exact Hint1.
  - right. change (FieldInput.node (FieldInput.set_node ?m i)) with m.
    change (field_name (FieldInput.set_node ?m i)) with (field_name i).
    fold k. apply field_member_owner.
    rewrite (field_owner_with_maps n int owners flds k Hint).
    rewrite Hins. apply lookup_insert_eq.
Qed.

(** X20.  Fields of different names can be added in either order: on a
    node where neither has an owner, plugin [P] adding one and plugin [Q]
    the other leave the same node, whichever call comes first. *)
Theorem createNodeField_order_irrelevant (P Q : Plugin)
    (i1 i2 : FieldInput.t) (t1 t2 : option string) (s s' : state)
    (int : Internal.t) :
  let n := FieldInput.node i1 in
  let ka := to_key (field_name i1) in
  let kb := to_key (field_name i2) in
  Node.internal n = Some int →
  ka ≠ kb →
  truthy_str (field_owner n ka) = false →
  truthy_str (field_owner n kb) = false →
  let first_P := (createNodeField i1 P t1 s).1.2 in
  let first_Q := (createNodeField (FieldInput.set_node n i2) Q t2 s).1.2 in
  (createNodeField (FieldInput.set_node first_P i2) Q t2 s').1.2
  = (createNodeField (FieldInput.set_node first_Q i1) P t1 s').1.2.
Proof.
  intros n ka kb Hint Hne _ _ first_P first_Q.
  subst first_P first_Q.
  rewrite (createNodeField_node i1 P t1 s int Hint).
  rewrite (createNodeField_node (FieldInput.set_node n i2) Q t2 s int
             Hint).
  cbv zeta.
  change (FieldInput.node (FieldInput.set_node n i2)) with n.
  change (field_name (FieldInput.set_node n i2)) with (field_name i2).
  change (field_value (FieldInput.set_node n i2)) with (field_value i2).
  fold n ka kb.
  rewrite !createNodeField_node_again by done. cbv zeta. fold ka kb.
  rewrite <- !surjective_pairing.
  by rewrite (claim_field_comm P Q ka kb) by done.
Qed.

End Composition.

Lemma linked_children_members (parent child : Node.t) (x : string) :
  x ∈ Node.children (linked parent child)
  ↔ x ∈ Node.children parent ∨ x = Node.id child.
Proof.
  rewrite linked_eq. simpl. unfold uniq.
  rewrite elem_of_baseUniq, elem_of_nil, elem_of_app,
    list_elem_of_singleton. tauto.
Qed.

Lemma linked_children_NoDup (parent child : Node.t) :
  NoDup (Node.children (linked parent child)).
Proof. rewrite linked_eq. apply NoDup_baseUniq, NoDup_nil_2. Qed.

(** X21.  Two children can be linked in either order: the parent ends up
    with the same children, up to their order in the list (the one linked
    first comes first), and is otherwise the same. *)
Theorem createParentChildLink_order (parent a b : Node.t) :
  let ab := linked (linked parent a) b in
  let ba := linked (linked parent b) a in
  Node.children ab ≡ₚ Node.children ba
  ∧ Node.set_children [] ab = Node.set_children [] ba.
Proof.
  intros ab ba. split.
  - apply NoDup_Permutation; try apply linked_children_NoDup.
    intros x. subst ab ba. rewrite !linked_children_members. tauto.
  - subst ab ba. by rewrite !linked_eq.
Qed.

(** * Concrete runs *)

(** C1 fails for [touchNode]: the node [n] is owned by [source-p], and a
    touch by [source-q] is answered with a [TOUCH_NODE] action. *)
Lemma touchNode_by_other_plugin_accepted : ¬ touch_only_by_owner.
Proof.
  intros Hclaim.
  apply (Hclaim (sample_store {[ "n" := stored_node "n" "T" "d1" "source-p" ]})
           "n" (stored_node "n" "T" "d1" "source-p") plugin_Q)
    with (traceId := None) (payload := "n").
  - apply lookup_singleton_eq.
  - discriminate.
  - reflexivity.
Qed.


(** C8 fails when the [prefixPaths] flag is not set: the prefix [/blog]
    is configured and the redirect is emitted with [/old] and [/new]. *)
Lemma createRedirect_unprefixed_without_flag : ¬ redirect_always_prefixed.
Proof.
  intros Hclaim.
  destruct (Hclaim old_to_new (mkStore ∅ "/site" false (Some "/blog") 0)
              "/blog" eq_refl) as (payload & Heq & Hfrom & _).
  injection Heq as <-. discriminate.
Qed.

(** [source-q] re-creates, with new content, the node that [source-p]
    owns. *)
Lemma createNode_foreign_node_rejected_witness :
  nodes store_with_foreign_node
    !! @createUuid sample_env (Node.id (sample_node "n" "T" "d2"))
         (name plugin_Q)
  = Some (stored_node "source-q>n" "T" "d1" "source-p")
  ∧ Node.owner (stored_node "source-q>n" "T" "d1" "source-p")
    ≠ Some (name plugin_Q)
  ∧ let c := (createNode (E := sample_env)
                (NodeObject (sample_node "n" "T" "d2")) (Some plugin_Q) None
                store_with_foreign_node empty_state).1.1 in
    (∀ a, c = Return (Action a) → a = VALIDATION_ERROR)
    ∧ (reaches_checks (E := sample_env) (Some plugin_Q)
         (sample_node "n" "T" "d2") →
       ∃ e, c = Throw e).
Proof.
  split; [vm_compute; reflexivity|]. split; [discriminate|].
  apply (createNode_foreign_node_rejected (E := sample_env)
           (sample_node "n" "T" "d2") plugin_Q None
           store_with_foreign_node empty_state
           (stored_node "source-q>n" "T" "d1" "source-p"));
    [vm_compute; reflexivity|discriminate].
Defined.

Example createNode_foreign_node_throws :
  (createNode (E := sample_env) (NodeObject (sample_node "n" "T" "d2"))
     (Some plugin_Q) None store_with_foreign_node empty_state).1.1
  = Throw (NodeOwnedByOther "source-q>n" (Some "source-p") "source-q").
Proof. vm_compute. reflexivity. Qed.

(** The runs below are on the sample environment. *)
#[local] Existing Instance sample_env.

Example createNode_new_node :
  createNode (E := sample_env) (NodeObject (sample_node "n" "T" "d1"))
    (Some {| name := "P" |}) None (sample_store ∅) empty_state
  = (Return (Action (CREATE_NODE (Some {| name := "P" |}) None
                       (stored_node "P>n" "T" "d1" "P"))),
     NodeObject (stored_node "P>n" "T" "d1" "P"),
     mkState {[ "T" := "P" ]} [] ["P>n"]).
Proof. vm_compute. reflexivity. Qed.

(** [source-p] is the first to submit a node of type [T]; afterwards
    [source-q] tries the same type with another id. *)
Lemma type_ownership_first_come_witness :
  name plugin_P ≠ EmptyString
  ∧ reaches_checks (Some plugin_P) (sample_node "n" "T" "d1")
  ∧ truthy_member
      (get_member (typeOwners empty_state)
         (to_key (Node.type (sample_node "n" "T" "d1")))) = false
  ∧ let t := to_key (Node.type (sample_node "n" "T" "d1")) in
    let s1 := after (mkCall (NodeObject (sample_node "n" "T" "d1"))
                       (Some plugin_P) None (sample_store ∅)) empty_state in
    let s2 := after_all
                [mkCall (NodeObject (sample_node "m" "T" "d2"))
                   (Some plugin_Q) None (sample_store ∅)] s1 in
    typeOwners s1 !! t = Some (name plugin_P)
    ∧ typeOwners s2 !! t = Some (name plugin_P)
    ∧ ∀ (Q : Plugin) (m : Node.t) (traceId' : option string) (S' : store),
        reaches_checks (Some Q) m →
        to_key (Node.type m) = t →
        let m1 := prepared (Some Q) m in
        let '(c, arg', s3) :=
          createNode (NodeObject m) (Some Q) traceId' S' s2 in
        typeOwners s3 = typeOwners s2
        ∧ (name Q = name plugin_P →
           (∀ e, c = Throw e →
                 ∀ pn ty o nd, e ≠ TypeOwnedByOther pn ty o nd)
           ∧ ((∀ old, getNode S' (Node.id m1) = Some old →
                      Node.owner old = Some (name plugin_P)) →
              c = Return (Action (detect (Some Q) traceId' S' m1))))
        ∧ (name Q ≠ name plugin_P →
           c = Throw (TypeOwnedByOther (name Q) t (Own (name plugin_P)) m1)
           ∧ arg' = NodeObject m1).
Proof.
  split; [discriminate|]. split; [by vm_compute|].
  split; [vm_compute; reflexivity|].
  apply (type_ownership_first_come plugin_P (sample_node "n" "T" "d1") None
           (sample_store ∅) empty_state
           [mkCall (NodeObject (sample_node "m" "T" "d2")) (Some plugin_Q)
              None (sample_store ∅)]);
    [discriminate|by vm_compute|vm_compute; reflexivity].
Defined.

Example type_owned_by_other_throws :
  (createNode (NodeObject (sample_node "m" "T" "d2")) (Some plugin_Q) None
     (sample_store ∅) (mkState {[ "T" := "source-p" ]} [] [])).1.1
  = Throw (TypeOwnedByOther "source-q" "T" (Own "source-p")
             (stored_node "source-q>m" "T" "d2" "source-q")).
Proof. vm_compute. reflexivity. Qed.

(** [source-p] is the first, and the only one, to submit a node of type
    [constructor]. *)
Lemma createNode_inherited_type_name_throws_witness :
  reaches_checks (Some plugin_P) constructor_node
  ∧ inherited (to_key (Node.type constructor_node)) = true
  ∧ typeOwners empty_state !! to_key (Node.type constructor_node) = None
  ∧ createNode (NodeObject constructor_node) (Some plugin_P) None
      (sample_store ∅) empty_state
    = (Throw (TypeOwnedByOther "source-p" "constructor" Inherited
                (stored_node "source-p>n" "constructor" "d1" "source-p")),
       NodeObject (stored_node "source-p>n" "constructor" "d1" "source-p"),
       mkState ∅ [] ["source-p>n"])
  ∧ typeOwners
      (after (mkCall (NodeObject constructor_node) (Some plugin_P) None
                (sample_store ∅)) empty_state) !! "constructor" = None.
Proof.
  split; [by vm_compute|]. split; [by vm_compute|].
  split; [vm_compute; reflexivity|].
  exact (createNode_inherited_type_name_throws plugin_P constructor_node
           None (sample_store ∅) empty_state ltac:(by vm_compute)
           ltac:(by vm_compute) ltac:(vm_compute; reflexivity)).
Defined.

Example createNode_type_constructor_throws :
  (createNode (NodeObject constructor_node) (Some plugin_P) None
     (sample_store ∅) empty_state).1.1
  = Throw (TypeOwnedByOther "source-p" "constructor" Inherited
             (stored_node "source-p>n" "constructor" "d1" "source-p")).
Proof. vm_compute. reflexivity. Qed.

(** [source-p] submits its stored node [n] again. *)
Lemma createNode_change_detection_witness :
  reaches_checks (Some plugin_P) (sample_node "n" "T" "d1")
  ∧ passes_ownership (Some plugin_P) (sample_node "n" "T" "d1")
      store_with_own_node empty_state
  ∧ let n1 := prepared (Some plugin_P) (sample_node "n" "T" "d1") in
    let c := (createNode (NodeObject (sample_node "n" "T" "d1"))
                (Some plugin_P) None store_with_own_node empty_state).1.1 in
    (∀ old, nodes store_with_own_node !! Node.id n1 = Some old →
            Node.contentDigest old = Node.contentDigest n1 →
            c = Return (Action (TOUCH_NODE (Some plugin_P) None
                                  (Node.id n1))))
    ∧ (∀ old, nodes store_with_own_node !! Node.id n1 = Some old →
              Node.contentDigest old ≠ Node.contentDigest n1 →
              c = Return (Action (CREATE_NODE (Some plugin_P) None n1)))
    ∧ (nodes store_with_own_node !! Node.id n1 = None →
       c = Return (Action (CREATE_NODE (Some plugin_P) None n1))).
Proof.
  assert (Hp : passes_ownership (Some plugin_P) (sample_node "n" "T" "d1")
                 store_with_own_node empty_state).
  { split; [left; vm_compute; reflexivity|].
    intros old Hold. vm_compute in Hold. injection Hold as <-.
    reflexivity. }
  split; [by vm_compute|]. split; [exact Hp|].
  apply (createNode_change_detection (sample_node "n" "T" "d1")
           (Some plugin_P) None store_with_own_node empty_state);
    [by vm_compute|exact Hp].
Defined.

Example createNode_unchanged_is_touch :
  (createNode (NodeObject (sample_node "n" "T" "d1")) (Some plugin_P) None
     store_with_own_node empty_state).1.1
  = Return (Action (TOUCH_NODE (Some plugin_P) None "source-p>n")).
Proof. vm_compute. reflexivity. Qed.

Example createNode_changed_is_create :
  (createNode (NodeObject (sample_node "n" "T" "d2")) (Some plugin_P) None
     store_with_own_node empty_state).1.1
  = Return (Action (CREATE_NODE (Some plugin_P) None
                      (stored_node "source-p>n" "T" "d2" "source-p"))).
Proof. vm_compute. reflexivity. Qed.

Lemma createNodeField_last_write_wins_witness :
  let n := stored_node "n" "T" "d1" "source-q" in
  name plugin_P ≠ EmptyString
  ∧ Node.internal n
    = Some (Internal.mk (Some "source-q") (Some "T") (Some "d1") None None
              None)
  ∧ may_write plugin_P n "slug"
  ∧ "slug" ≠ "__proto__"
  ∧ let '(c1, n1, s1) :=
      createNodeField (slug_input "/a/") plugin_P None empty_state in
    let '(c2, n2, s2) :=
      createNodeField
        (FieldInput.mk n1 (Some "slug") None VUndefined (VString "/b/"))
        plugin_P None s1 in
    c1 = Return (Action (ADD_FIELD_TO_NODE (Some plugin_P) None n1))
    ∧ field_owner n1 "slug" = Some (name plugin_P)
    ∧ field n1 "slug" = Some (VString "/a/")
    ∧ c2 = Return (Action (ADD_FIELD_TO_NODE (Some plugin_P) None n2))
    ∧ field_owner n2 "slug" = Some (name plugin_P)
    ∧ field n2 "slug" = Some (VString "/b/")
    ∧ ∀ (Q : Plugin) (v3 : value) (t3 : option string) (s3 : state),
        name Q ≠ name plugin_P →
        createNodeField
          (FieldInput.mk n2 (Some "slug") None VUndefined v3) Q t3 s3
        = (Throw (FieldOwnedByOther (Node.id n2) (name Q) "slug" v3), n2,
           s3).
Proof.
  intros n.
  split; [discriminate|]. split; [reflexivity|].
  split; [left; vm_compute; reflexivity|]. split; [discriminate|].
  apply (createNodeField_last_write_wins plugin_P n "slug" (VString "/a/")
           (VString "/b/") None None empty_state
           (Internal.mk (Some "source-q") (Some "T") (Some "d1") None None
              None));
    [discriminate|reflexivity|left; vm_compute; reflexivity|discriminate].
Defined.

(** [source-p] is the first to add the field [constructor] to a node. *)
Lemma createNodeField_inherited_field_name_throws_witness :
  let n := stored_node "n" "T" "d1" "source-q" in
  Node.internal n
  = Some (Internal.mk (Some "source-q") (Some "T") (Some "d1") None None
            None)
  ∧ inherited "constructor" = true
  ∧ field_owner n "constructor" = None
  ∧ let '(c, n', s') :=
      createNodeField
        (FieldInput.mk n (Some "constructor") None VUndefined (VString "x"))
        plugin_P None empty_state in
    c = Throw (FieldOwnedByOther "n" "source-p" "constructor" (VString "x"))
    ∧ n' = Node.mk "n" None []
             (Some (Internal.mk (Some "source-q") (Some "T") (Some "d1")
                      None None (Some ∅)))
             (Some ∅) []
    ∧ field_owner n' "constructor" = None
    ∧ s' = empty_state.
Proof.
  intros n.
  split; [reflexivity|]. split; [by vm_compute|]. split; [reflexivity|].
  apply (createNodeField_inherited_field_name_throws plugin_P n
           "constructor" (VString "x") None empty_state
           (Internal.mk (Some "source-q") (Some "T") (Some "d1") None None
              None));
    [reflexivity|by vm_compute|reflexivity].
Defined.

Example createNodeField_field_constructor_throws :
  (createNodeField
     (FieldInput.mk (stored_node "n" "T" "d1" "source-q")
        (Some "constructor") None VUndefined (VString "x"))
     plugin_P None empty_state).1.1
  = Throw (FieldOwnedByOther "n" "source-p" "constructor" (VString "x")).
Proof. vm_compute. reflexivity. Qed.

Example createNodeField_second_value_wins :
  let '(_, n1, s1) :=
    createNodeField (slug_input "/a/") plugin_P None empty_state in
  let '(_, n2, _) :=
    createNodeField (FieldInput.set_node n1 (slug_input "/b/")) plugin_P
      None s1 in
  field n1 "slug" = Some (VString "/a/")
  ∧ field n2 "slug" = Some (VString "/b/")
  ∧ field_owner n2 "slug" = Some "source-p"
  ∧ (createNodeField (FieldInput.set_node n2 (slug_input "/c/")) plugin_Q
       None empty_state).1.1
    = Throw (FieldOwnedByOther "n" "source-q" "slug" (VString "/c/")).
Proof. vm_compute. repeat split; reflexivity. Qed.

(** The pages [foo] and [/]. *)
Lemma createPage_normalizes_path_witness :
  pageSchema (internalPage page_foo (sample_store ∅)) = None
  ∧ pageSchema (internalPage page_root (sample_store ∅)) = None
  ∧ PageInput.path page_foo = "foo"
  ∧ PageInput.path page_root = "/"
  ∧ kebabCase "/" = EmptyString
  ∧ (∃ payload,
       createPage page_foo None None (sample_store ∅) empty_state
       = (Action (CREATE_PAGE None None payload), empty_state)
       ∧ Page.path payload = "/foo")
  ∧ (∃ payload,
       createPage page_root None None (sample_store ∅) empty_state
       = (Action (CREATE_PAGE None None payload), empty_state)
       ∧ Page.path payload = "/"
       ∧ Page.jsonName payload = "index.json"
       ∧ Page.internalComponentName payload = "ComponentIndex").
Proof.
  repeat (split; [reflexivity|]). split.
  - destruct (createPage_normalizes_path (E := sample_env) page_foo None None
                (sample_store ∅) empty_state ltac:(reflexivity))
      as (payload & Heq & _ & _ & Hfoo & _).
    exists payload. split; [exact Heq|]. apply Hfoo. reflexivity.
  - destruct (createPage_normalizes_path (E := sample_env) page_root None None
                (sample_store ∅) empty_state ltac:(reflexivity))
      as (payload & Heq & _ & _ & _ & Hroot).
    exists payload. split; [exact Heq|]. apply Hroot; reflexivity.
Defined.

(** The prefix [/blog] with the [prefixPaths] flag set. *)
Lemma createRedirect_prefixes_when_enabled_witness :
  pathPrefix (mkStore ∅ "/site" true (Some "/blog") 0) = Some "/blog"
  ∧ ∃ payload,
      createRedirect old_to_new (mkStore ∅ "/site" true (Some "/blog") 0)
      = CREATE_REDIRECT payload
      ∧ Redirect.fromPath payload = "/blog/old"
      ∧ Redirect.toPath payload = "/blog/new".
Proof.
  split; [reflexivity|].
  destruct (createRedirect_prefixes_when_enabled old_to_new
              (mkStore ∅ "/site" true (Some "/blog") 0) "/blog" eq_refl)
    as (payload & Heq & Hon & _).
  exists payload. split; [exact Heq|]. apply Hon. reflexivity.
Defined.

(** A page and a layout that the sample schemas reject. *)
Lemma invalid_page_or_layout_reported_witness :
  pageSchema (internalPage page_invalid (sample_store ∅))
  = Some "component is required"
  ∧ layoutSchema (internalLayout layout_invalid (sample_store ∅))
    = Some "component is required"
  ∧ (∃ s', createPage page_invalid (Some plugin_P) None (sample_store ∅)
             empty_state = (Null, s')
           ∧ console s'
             = console empty_state
               ++ [LogText "The upserted page didn't pass validation";
                   LogValidation "component is required";
                   LogPage (internalPage page_invalid (sample_store ∅))]
           ∧ typeOwners s' = typeOwners empty_state
           ∧ tracked s' = tracked empty_state)
  ∧ (∃ s', createLayout layout_invalid (Some plugin_P) None (sample_store ∅)
             empty_state = (Null, s')
           ∧ console s'
             = console empty_state
               ++ [LogText "The upserted layout didn't pass validation";
                   LogValidation "component is required";
                   LogLayout (internalLayout layout_invalid
                                (sample_store ∅))]
           ∧ typeOwners s' = typeOwners empty_state
           ∧ tracked s' = tracked empty_state).
Proof.
  split; [reflexivity|]. split; [reflexivity|].
  destruct (invalid_page_or_layout_reported page_invalid layout_invalid
              (Some plugin_P) None (sample_store ∅) empty_state)
    as (Hpage & Hlayout).
  split; [apply Hpage|apply Hlayout]; reflexivity.
Defined.

(** A node of a type that [source-p] owns, with the id of a node that
    [source-p] owns, submitted without a plugin. *)
Lemma createNode_without_plugin_witness :
  typeOwners (mkState {[ "T" := "source-p" ]} [] []) !! "T" = Some "source-p"
  ∧ Node.owner <$>
      nodes (sample_store {[ "n" := stored_node "n" "T" "d1" "source-p" ]})
        !! "n" = Some (Some "source-p")
  ∧ reaches_checks None (sample_node "n" "T" "d2")
  ∧ createNode (NodeObject (sample_node "n" "T" "d2")) None None
      (sample_store {[ "n" := stored_node "n" "T" "d1" "source-p" ]})
      (mkState {[ "T" := "source-p" ]} [] [])
    = (Return (Action (CREATE_NODE None None (sample_node "n" "T" "d2"))),
       NodeObject (sample_node "n" "T" "d2"),
       mkState {[ "T" := "source-p" ]} [] ["n"]).
Proof.
  split; [vm_compute; reflexivity|]. split; [vm_compute; reflexivity|].
  split; [by vm_compute|].
  pose proof (createNode_without_plugin
                (NodeObject (sample_node "n" "T" "d2")) None
                (sample_store {[ "n" := stored_node "n" "T" "d1" "source-p" ]})
                (mkState {[ "T" := "source-p" ]} [] [])) as Hthm.
  destruct (createNode _ _ _ _ _) as [[c arg'] s'] eqn:Hrun.
  destruct arg' as [n'|v']; [|destruct Hthm as (_ & _ & [])].
  destruct Hthm as (Htable & _ & Hid & Hown & _ & Hdetect).
  rewrite (Hdetect ltac:(by vm_compute)).
  vm_compute in Hrun. injection Hrun as _ <- <-. reflexivity.
Defined.

(** ** Runs of the further properties *)

Lemma createNode_same_object_twice_exits_witness :
  truthy_str (Node.owner (sample_node "n" "T" "d1")) = false
  ∧ name plugin_P ≠ EmptyString
  ∧ let '(_, arg', s1) :=
      createNode (NodeObject (sample_node "n" "T" "d1")) (Some plugin_P)
        None (sample_store ∅) empty_state in
    arg' = NodeObject (prepared (Some plugin_P) (sample_node "n" "T" "d1"))
    ∧ createNode arg' (Some plugin_P) None store_with_own_node s1
      = (Exit 1, arg',
         log (LogText owner_is_automatic)
           (log (LogNode (prepared (Some plugin_P)
                            (sample_node "n" "T" "d1"))) s1)).
Proof.
  split; [reflexivity|]. split; [discriminate|].
  apply (createNode_same_object_twice_exits (sample_node "n" "T" "d1")
           plugin_P None (sample_store ∅) empty_state (Some plugin_P) None
           store_with_own_node); [reflexivity|discriminate].
Defined.

Lemma createNode_never_accepts_fields_witness :
  is_Some (Node.fields node_with_fields)
  ∧ (createNode (NodeObject node_with_fields) (Some plugin_P) None
       (sample_store ∅) empty_state).1.1
    = Throw (ReservedFields (prepared (Some plugin_P) node_with_fields)
               (Some plugin_P)).
Proof.
  split; [by eexists|].
  pose proof (createNode_never_accepts_fields node_with_fields
                (Some plugin_P) None (sample_store ∅) empty_state
                ltac:(by eexists)) as Hthm.
  destruct (createNode _ _ _ _ _) as [[c arg'] s'] eqn:Hrun.
  destruct Hthm as (_ & _ & _ & _ & _).
  vm_compute in Hrun. injection Hrun as <- _ _. reflexivity.
Defined.

Lemma createNode_after_createNodeField_rejected_witness :
  (∃ a, (createNodeField (slug_input "/a/") plugin_P None empty_state).1.1
        = Return (Action a))
  ∧ let '(_, n', s1) :=
      createNodeField (slug_input "/a/") plugin_P None empty_state in
    let '(c, _, s2) :=
      createNode (NodeObject n') None None (sample_store ∅) s1 in
    (c = Exit 1 ∨ c = Return (Action VALIDATION_ERROR)
     ∨ c = Throw (ReservedFields (prepared None n') None))
    ∧ typeOwners s2 = typeOwners s1.
Proof.
  assert (Hok : ∃ a,
    (createNodeField (slug_input "/a/") plugin_P None empty_state).1.1
    = Return (Action a)) by (eexists; vm_compute; reflexivity).
  split; [exact Hok|].
  apply (createNode_after_createNodeField_rejected (slug_input "/a/")
           plugin_P None empty_state None None (sample_store ∅) Hok).
Defined.


Lemma createNode_claims_type_before_owner_check_witness :
  reaches_checks (Some plugin_Q) (sample_node "n" "T" "d2")
  ∧ truthy_member
      (get_member (typeOwners empty_state)
         (to_key (Node.type (sample_node "n" "T" "d2")))) = false
  ∧ nodes store_with_foreign_node
      !! createUuid (Node.id (sample_node "n" "T" "d2")) (name plugin_Q)
    = Some (stored_node "source-q>n" "T" "d1" "source-p")
  ∧ Node.internal (stored_node "source-q>n" "T" "d1" "source-p")
    = Some (Internal.mk (Some "source-p") (Some "T") (Some "d1") None None
              None)
  ∧ Some "source-p" ≠ Some (name plugin_Q)
  ∧ typeOwners
      (createNode (NodeObject (sample_node "n" "T" "d2")) (Some plugin_Q)
         None store_with_foreign_node empty_state).2
      !! "T" = Some "source-q".
Proof.
  split; [by vm_compute|]. split; [vm_compute; reflexivity|].
  split; [vm_compute; reflexivity|]. split; [reflexivity|].
  split; [discriminate|].
  rewrite (createNode_claims_type_before_owner_check
             (sample_node "n" "T" "d2") plugin_Q None
             store_with_foreign_node empty_state
             (stored_node "source-q>n" "T" "d1" "source-p")
             (Internal.mk (Some "source-p") (Some "T") (Some "d1") None
                None None));
    [vm_compute; reflexivity|by vm_compute|vm_compute; reflexivity
    |vm_compute; reflexivity|reflexivity|discriminate].
Defined.

Lemma createNode_resubmission_is_touch_witness :
  reaches_checks (Some plugin_P) (sample_node "n" "T" "d1")
  ∧ passes_ownership (Some plugin_P) (sample_node "n" "T" "d1")
      (sample_store ∅) empty_state
  ∧ nodes store_with_own_node
      !! Node.id (prepared (Some plugin_P) (sample_node "n" "T" "d1"))
    = Some (prepared (Some plugin_P) (sample_node "n" "T" "d1"))
  ∧ let n1 := prepared (Some plugin_P) (sample_node "n" "T" "d1") in
    let '(c1, _, s1) :=
      createNode (NodeObject (sample_node "n" "T" "d1")) (Some plugin_P)
        None (sample_store ∅) empty_state in
    let '(c2, arg2, s2) :=
      createNode (NodeObject (sample_node "n" "T" "d1")) (Some plugin_P)
        None store_with_own_node s1 in
    c1 = Return (Action (detect (Some plugin_P) None (sample_store ∅) n1))
    ∧ c2 = Return (Action (TOUCH_NODE (Some plugin_P) None (Node.id n1)))
    ∧ arg2 = NodeObject n1
    ∧ typeOwners s2 = typeOwners s1.
Proof.
  assert (Hp : passes_ownership (Some plugin_P) (sample_node "n" "T" "d1")
                 (sample_store ∅) empty_state).
  { split; [left; vm_compute; reflexivity|].
    intros old Hold. vm_compute in Hold. discriminate. }
  split; [by vm_compute|]. split; [exact Hp|].
  split; [vm_compute; reflexivity|].
  apply (createNode_resubmission_is_touch (sample_node "n" "T" "d1")
           plugin_P None None (sample_store ∅) store_with_own_node
           empty_state); [by vm_compute|exact Hp|vm_compute; reflexivity].
Defined.

Lemma createNodeField_deprecated_aliases_witness :
  "slug" ≠ EmptyString
  ∧ truthy (VString "/a/") = true
  ∧ let deprecated :=
      FieldInput.mk (stored_node "n" "T" "d1" "source-q") None
        (Some "slug") (VString "/a/") VUndefined in
    let '(c, n', s') := createNodeField (slug_input "/a/") plugin_P None
                          empty_state in
    s' = empty_state
    ∧ createNodeField deprecated plugin_P None empty_state
      = (c, n',
         log (Warn fieldValue_deprecated)
           (log (Warn fieldName_deprecated) empty_state)).
Proof.
  split; [discriminate|]. split; [reflexivity|].
  apply (createNodeField_deprecated_aliases
           (stored_node "n" "T" "d1" "source-q") "slug" (VString "/a/")
           plugin_P None empty_state); [discriminate|reflexivity].
Defined.

Lemma createNodeField_other_fields_kept_witness :
  Node.internal (FieldInput.node (slug_input "/a/"))
  = Some (Internal.mk (Some "source-q") (Some "T") (Some "d1") None None
            None)
  ∧ may_write plugin_P (FieldInput.node (slug_input "/a/"))
      (to_key (field_name (slug_input "/a/")))
  ∧ let '(_, n', _) :=
      createNodeField (slug_input "/a/") plugin_P None empty_state in
    field n' "title" = None ∧ Node.owner n' = Some "source-q".
Proof.
  split; [reflexivity|]. split; [left; vm_compute; reflexivity|].
  pose proof (createNodeField_other_fields_kept (slug_input "/a/") plugin_P
                None empty_state
                (Internal.mk (Some "source-q") (Some "T") (Some "d1") None
                   None None)
                eq_refl ltac:(left; vm_compute; reflexivity)) as Hthm.
  destruct (createNodeField _ _ _ _) as [[c n'] s'].
  destruct Hthm as (_ & Hother & _ & _ & _ & _ & Hown & _).
  split; [|by rewrite Hown].
  destruct (Hother "title" ltac:(discriminate)) as (-> & _).
  vm_compute. reflexivity.
Defined.

Lemma createNodeField_owners_per_field_witness :
  let n := stored_node "n" "T" "d1" "source-q" in
  Node.internal n
  = Some (Internal.mk (Some "source-q") (Some "T") (Some "d1") None None
            None)
  ∧ "slug" ≠ "title"
  ∧ field_member n "slug" = Missing
  ∧ field_member n "title" = Missing
  ∧ let '(c1, n1, s1) :=
      createNodeField (slug_input "/a/") plugin_P None empty_state in
    let '(c2, n2, _) :=
      createNodeField
        (FieldInput.mk n1 (Some "title") None VUndefined (VString "Hello"))
        plugin_Q None s1 in
    c1 = Return (Action (ADD_FIELD_TO_NODE (Some plugin_P) None n1))
    ∧ c2 = Return (Action (ADD_FIELD_TO_NODE (Some plugin_Q) None n2))
    ∧ field n2 "slug" = Some (VString "/a/")
    ∧ field n2 "title" = Some (VString "Hello")
    ∧ field_owner n2 "slug" = Some (name plugin_P)
    ∧ field_owner n2 "title" = Some (name plugin_Q).
Proof.
  intros n.
  split; [reflexivity|]. split; [discriminate|].
  split; [vm_compute; reflexivity|]. split; [vm_compute; reflexivity|].
  apply (createNodeField_owners_per_field plugin_P plugin_Q n "slug"
           "title" (VString "/a/") (VString "Hello") None None empty_state
           (Internal.mk (Some "source-q") (Some "T") (Some "d1") None None
              None));
    [reflexivity|discriminate|vm_compute; reflexivity
    |vm_compute; reflexivity].
Defined.

Lemma createNodeField_needs_internal_witness :
  Node.internal (FieldInput.node bare_input) = None
  ∧ createNodeField bare_input plugin_P None empty_state
    = (Throw (TypeError cannot_read_fieldOwners),
       FieldInput.node bare_input, warnings bare_input empty_state).
Proof.
  split; [reflexivity|].
  apply (createNodeField_needs_internal bare_input plugin_P None
           empty_state). reflexivity.
Defined.

Lemma createParentChildLink_appends_new_child_witness :
  NoDup (Node.children (Node.set_children ["a"; "b"]
                          (sample_node "p" "T" "d1")))
  ∧ Node.children
      (linked (Node.set_children ["a"; "b"] (sample_node "p" "T" "d1"))
         (sample_node "c" "T" "d1"))
    = ["a"; "b"; "c"].
Proof.
  assert (Hnd : NoDup (Node.children
                         (Node.set_children ["a"; "b"]
                            (sample_node "p" "T" "d1")))).
  { simpl. apply (bool_decide_unpack _). vm_compute. exact I. }
  split; [exact Hnd|].
  rewrite (createParentChildLink_appends_new_child
             (Node.set_children ["a"; "b"] (sample_node "p" "T" "d1"))
             (sample_node "c" "T" "d1") Hnd).
  reflexivity.
Defined.

Lemma createPage_names_from_given_path_witness :
  pageSchema (internalPage page_foo (sample_store ∅)) = None
  ∧ kebabCase (PageInput.path page_foo) ≠ EmptyString
  ∧ ∃ payload,
      createPage page_foo None None (sample_store ∅) empty_state
      = (Action (CREATE_PAGE None None payload), empty_state)
      ∧ Page.jsonName payload = "foo.json"
      ∧ Page.internalComponentName payload = "Componentfoo".
Proof.
  split; [reflexivity|]. split; [discriminate|].
  destruct (createPage_names_from_given_path (E := sample_env) page_foo
              None None (sample_store ∅) empty_state ltac:(reflexivity))
    as (payload & Heq & _ & Hnames).
  exists payload. split; [exact Heq|].
  destruct (Hnames ltac:(discriminate)) as (-> & ->). by split.
Defined.

Lemma createPage_defaults_witness :
  pageSchema (internalPage page_foo (sample_store ∅)) = None
  ∧ ∃ payload,
      createPage page_foo None None (sample_store ∅) empty_state
      = (Action (CREATE_PAGE None None payload), empty_state)
      ∧ Page.layout payload = None
      ∧ Page.context payload = VObject [].
Proof.
  split; [reflexivity|].
  destruct (createPage_defaults (E := sample_env) page_foo None None
              (sample_store ∅) empty_state ltac:(reflexivity))
    as (payload & Heq & Hlayout & _ & Hcontext).
  exists payload. split; [exact Heq|]. by rewrite Hlayout, Hcontext.
Defined.

Lemma createPage_path_begins_with_slash_witness :
  pageSchema (internalPage page_foo (sample_store ∅)) = None
  ∧ ∃ payload,
      createPage page_foo None None (sample_store ∅) empty_state
      = (Action (CREATE_PAGE None None payload), empty_state)
      ∧ no_initial_slash (Page.path payload) = false.
Proof.
  split; [reflexivity|].
  destruct (createPage_path_begins_with_slash (E := sample_env) page_foo
              None None (sample_store ∅) empty_state ltac:(reflexivity))
    as (payload & Heq & Hslash & _).
  by exists payload.
Defined.

Lemma createLayout_derives_from_id_witness :
  layoutSchema (internalLayout layout_valid (sample_store ∅)) = None
  ∧ ∃ payload,
      createLayout layout_valid None None (sample_store ∅) empty_state
      = (Action (CREATE_LAYOUT None None payload), empty_state)
      ∧ Layout.id payload = "main"
      ∧ Layout.machineId payload = "layout---main".
Proof.
  split; [reflexivity|].
  destruct (createLayout_derives_from_id (E := sample_env) layout_valid
              None None (sample_store ∅) empty_state ltac:(reflexivity))
    as (payload & Heq & Hid & Hmachine & _).
  exists payload. split; [exact Heq|]. by rewrite Hmachine, Hid.
Defined.

Lemma createRedirect_missing_prefix_witness :
  prefixPaths store_flag_only = true
  ∧ pathPrefix store_flag_only = None
  ∧ createRedirect old_to_new store_flag_only
    = CREATE_REDIRECT
        (Redirect.mk "undefined/old" false false "undefined/new" []).
Proof.
  split; [reflexivity|]. split; [reflexivity|].
  apply (createRedirect_missing_prefix old_to_new store_flag_only);
    reflexivity.
Defined.

Lemma createNodeField_idempotent_witness :
  Node.internal (FieldInput.node (slug_input "/a/"))
  = Some (Internal.mk (Some "source-q") (Some "T") (Some "d1") None None
            None)
  ∧ may_write plugin_P (FieldInput.node (slug_input "/a/"))
      (to_key (field_name (slug_input "/a/")))
  ∧ let '(c1, n1, s1) :=
      createNodeField (slug_input "/a/") plugin_P None empty_state in
    c1 = Return (Action (ADD_FIELD_TO_NODE (Some plugin_P) None n1))
    ∧ createNodeField (FieldInput.set_node n1 (slug_input "/a/")) plugin_P
        None s1
      = (Return (Action (ADD_FIELD_TO_NODE (Some plugin_P) None n1)), n1,
         warnings (slug_input "/a/") s1).
Proof.
  split; [reflexivity|]. split; [left; vm_compute; reflexivity|].
  apply (createNodeField_idempotent (slug_input "/a/") plugin_P None None
           empty_state
           (Internal.mk (Some "source-q") (Some "T") (Some "d1") None None
              None)); [reflexivity|left; vm_compute; reflexivity].
Defined.

Lemma createNodeField_order_irrelevant_witness :
  Node.internal (FieldInput.node (slug_input "/a/"))
  = Some (Internal.mk (Some "source-q") (Some "T") (Some "d1") None None
            None)
  ∧ to_key (field_name (slug_input "/a/")) ≠ to_key (field_name title_input)
  ∧ truthy_str (field_owner (FieldInput.node (slug_input "/a/"))
                  (to_key (field_name (slug_input "/a/")))) = false
  ∧ truthy_str (field_owner (FieldInput.node (slug_input "/a/"))
                  (to_key (field_name title_input))) = false
  ∧ let n := FieldInput.node (slug_input "/a/") in
    let first_P :=
      (createNodeField (slug_input "/a/") plugin_P None empty_state).1.2 in
    let first_Q :=
      (createNodeField (FieldInput.set_node n title_input) plugin_Q None
         empty_state).1.2 in
    (createNodeField (FieldInput.set_node first_P title_input) plugin_Q
       None empty_state).1.2
    = (createNodeField (FieldInput.set_node first_Q (slug_input "/a/"))
         plugin_P None empty_state).1.2.
Proof.
  split; [reflexivity|]. split; [discriminate|].
  split; [vm_compute; reflexivity|]. split; [vm_compute; reflexivity|].
  apply (createNodeField_order_irrelevant plugin_P plugin_Q
           (slug_input "/a/") title_input None None empty_state empty_state
           (Internal.mk (Some "source-q") (Some "T") (Some "d1") None None
              None));
    [reflexivity|discriminate|vm_compute; reflexivity
    |vm_compute; reflexivity].
Defined.
